(** * RSI cycle analyser: a shallow embedding of [app.py]

    The analysis core of the application is four functions,
    [calculate_rsi], [detect_rsi_crosses], [calculate_ohlc_average] and
    [create_cycles], plus the colouring and counting of cycles, the
    slicing of the table into traces, the cross markers and the
    statistics done in [create_interactive_plot] and [main].  They are
    embedded here as executable Rocq functions and the statements of the
    specification are settled against them.

    Modelling conventions.
    - A Python [int] is a [Z].
    - A pandas float is a [float64]: not-a-number, the two infinities, or
      a finite value carried as an exact rational.  Comparisons follow
      IEEE 754 (every comparison with not-a-number is false).  Arithmetic
      is exact on finite values: rounding, overflow and the sign of zero
      are not modelled.  This is the model of the RSI engine, whose
      rolling mean is computed inside pandas, and of every statement
      that does not depend on the last digit of a price.
    - Where the last digit decides, in the colour of a cycle, the same
      code is embedded a second time in [Binary64] on IEEE 754 binary64
      values, with every operation rounded as Python rounds it.
    - A Python exception is a value [Raise e] of the [result] type;
      indexing ([Series.iloc], list subscript) raises [IndexError] out of
      range and counts from the end for a negative index, and a rolling
      window of negative size raises [ValueError]. *)

From Stdlib Require Import ZArith QArith Qabs List Bool Lia Lqa Sorted.
From Stdlib Require Import Floats.PrimFloat Floats.SpecFloat Floats.FloatOps.
Import ListNotations.

Open Scope Z_scope.

(** ** Exceptions *)

Inductive exn : Type :=
| ValueError
| IndexError.

Inductive result (A : Type) : Type :=
| Ok (a : A)
| Raise (e : exn).

Arguments Ok {A} a.
Arguments Raise {A} e.

Definition bind {A B : Type} (r : result A) (k : A -> result B) : result B :=
  match r with
  | Ok a => k a
  | Raise e => Raise e
  end.

Notation "x <- r ;; k" := (bind r (fun x => k))
  (at level 61, r at next level, right associativity).

(** [for x in xs: s = body s x], stopping at the first exception. *)
Fixpoint for_each {A S : Type} (xs : list A) (body : S -> A -> result S)
  (s : S) : result S :=
  match xs with
  | [] => Ok s
  | x :: tl => s' <- body s x ;; for_each tl body s'
  end.

(** ** Python sequences *)

Definition len {A : Type} (xs : list A) : Z := Z.of_nat (length xs).

(** [range(a, b)] *)
Definition range (a b : Z) : list Z :=
  map (fun k => a + Z.of_nat k) (seq 0 (Z.to_nat (b - a))).

(** [xs[i]] and [s.iloc[i]] *)
Definition getitem {A : Type} (xs : list A) (i : Z) : result A :=
  let j := if i <? 0 then len xs + i else i in
  if j <? 0 then Raise IndexError
  else match nth_error xs (Z.to_nat j) with
       | Some x => Ok x
       | None => Raise IndexError
       end.

Definition iloc {A : Type} (s : list A) (i : Z) : result A := getitem s i.

(** ** Floating-point values *)

Inductive float64 : Type :=
| NaN
| NInf
| Fin (q : Q)
| PInf.

Definition is_nan (x : float64) : bool :=
  match x with NaN => true | _ => false end.

Definition Qltb (a b : Q) : bool := negb (Qle_bool b a).

(** [x < y] *)
Definition fltb (x y : float64) : bool :=
  match x, y with
  | NaN, _ | _, NaN => false
  | NInf, NInf => false
  | NInf, _ => true
  | Fin _, NInf => false
  | Fin a, Fin b => Qltb a b
  | Fin _, PInf => true
  | PInf, _ => false
  end.

(** [x <= y] *)
Definition fleb (x y : float64) : bool :=
  match x, y with
  | NaN, _ | _, NaN => false
  | NInf, _ => true
  | Fin _, NInf => false
  | Fin a, Fin b => Qle_bool a b
  | Fin _, PInf => true
  | PInf, PInf => true
  | PInf, _ => false
  end.

(** [x > y] and [x >= y] *)
Definition fgtb (x y : float64) : bool := fltb y x.
Definition fgeb (x y : float64) : bool := fleb y x.

Definition fneg (x : float64) : float64 :=
  match x with
  | NaN => NaN
  | NInf => PInf
  | Fin a => Fin (- a)
  | PInf => NInf
  end.

Definition fadd (x y : float64) : float64 :=
  match x, y with
  | NaN, _ | _, NaN => NaN
  | PInf, NInf | NInf, PInf => NaN
  | PInf, _ | _, PInf => PInf
  | NInf, _ | _, NInf => NInf
  | Fin a, Fin b => Fin (a + b)
  end.

Definition fsub (x y : float64) : float64 := fadd x (fneg y).

(** Division as pandas does it on float columns: no exception, a nonzero
    value over zero is an infinity and zero over zero is not-a-number. *)
Definition fdiv (x y : float64) : float64 :=
  match x, y with
  | NaN, _ | _, NaN => NaN
  | Fin a, Fin b =>
      if Qeq_bool b 0 then
        (if Qltb 0 a then PInf else if Qltb a 0 then NInf else NaN)
      else Fin (a / b)
  | Fin _, _ => Fin 0
  | PInf, Fin b => if Qltb b 0 then NInf else PInf
  | NInf, Fin b => if Qltb b 0 then PInf else NInf
  | _, _ => NaN
  end.


(** ** pandas series operations *)

(** [s.diff()] *)
Fixpoint diff_from (prev : float64) (rest : list float64) : list float64 :=
  match rest with
  | [] => []
  | x :: tl => fsub x prev :: diff_from x tl
  end.

Definition diff (s : list float64) : list float64 :=
  match s with
  | [] => []
  | x :: tl => NaN :: diff_from x tl
  end.

(** [s.where(cond, other)]: keep the entries where [cond] holds. *)
Definition where_ (cond : float64 -> bool) (other : float64)
  (s : list float64) : list float64 :=
  map (fun x => if cond x then x else other) s.

Definition fsum (xs : list float64) : float64 := fold_left fadd xs (Fin 0).

(** The mean of one window: not-a-number unless the window holds at least
    [minp] observations (entries that are not not-a-number). *)
Definition window_mean (minp : nat) (w : list float64) : float64 :=
  let obs := filter (fun x => negb (is_nan x)) w in
  let nobs := length obs in
  if ((minp <=? nobs) && (0 <? nobs))%nat
  then fdiv (fsum obs) (Fin (inject_Z (Z.of_nat nobs)))
  else NaN.

(** The trailing window of size [w] that ends at position [i]. *)
Definition window_at (w i : nat) (s : list float64) : list float64 :=
  skipn (i + 1 - w) (firstn (i + 1) s).

(** [s.rolling(window=window).mean()], with the default [min_periods],
    which is the window size. *)
Definition rolling_mean (window : Z) (s : list float64)
  : result (list float64) :=
  if window <? 0 then Raise ValueError
  else
    let w := Z.to_nat window in
    Ok (map (fun i => window_mean w (window_at w i s)) (seq 0 (length s))).

Fixpoint map2 {A B C : Type} (f : A -> B -> C) (xs : list A) (ys : list B)
  : list C :=
  match xs, ys with
  | x :: xs', y :: ys' => f x y :: map2 f xs' ys'
  | _, _ => []
  end.

(** ** The analysis functions *)

(** The two rolling averages of [calculate_rsi]:
    [gain = (delta.where(delta > 0, 0)).rolling(window=period).mean()] and
    [loss = (-delta.where(delta < 0, 0)).rolling(window=period).mean()]. *)
Definition gain_series (delta : list float64) (period : Z)
  : result (list float64) :=
  rolling_mean period (where_ (fun d => fgtb d (Fin 0)) (Fin 0) delta).

Definition loss_series (delta : list float64) (period : Z)
  : result (list float64) :=
  rolling_mean period (map fneg (where_ (fun d => fltb d (Fin 0)) (Fin 0) delta)).

(** [100 - (100 / (1 + rs))] *)
Definition rsi_of_rs (rs : float64) : float64 :=
  fsub (Fin 100) (fdiv (Fin 100) (fadd (Fin 1) rs)).

(** [calculate_rsi(prices, period)] *)
Definition calculate_rsi (prices : list float64) (period : Z)
  : result (list float64) :=
  let delta := diff prices in
  gain <- gain_series delta period ;;
  loss <- loss_series delta period ;;
  let rs := map2 fdiv gain loss in
  let rsi := map rsi_of_rs rs in
  Ok rsi.

Inductive cross_kind : Type :=
| overbought_cross
| oversold_cross.

(** A cross is the tuple [(i, kind, current_rsi)]. *)
Definition cross : Type := Z * cross_kind * float64.

Definition cross_index (c : cross) : Z := fst (fst c).
Definition cross_type_of (c : cross) : cross_kind := snd (fst c).
Definition cross_value (c : cross) : float64 := snd c.

(** The body of the loop of [detect_rsi_crosses]. *)
Definition detect_step (rsi_series : list float64) (overbought oversold : Q)
  (crosses : list cross) (i : Z) : result (list cross) :=
  current_rsi <- iloc rsi_series i ;;
  prev_rsi <- iloc rsi_series (i - 1) ;;
  if fleb prev_rsi (Fin overbought) && fgtb current_rsi (Fin overbought)
  then Ok (crosses ++ [(i, overbought_cross, current_rsi)])
  else if fgeb prev_rsi (Fin oversold) && fltb current_rsi (Fin oversold)
  then Ok (crosses ++ [(i, oversold_cross, current_rsi)])
  else Ok crosses.

(** [detect_rsi_crosses(rsi_series, overbought, oversold)] *)
Definition detect_rsi_crosses (rsi_series : list float64)
  (overbought oversold : Q) : result (list cross) :=
  for_each (range 1 (len rsi_series))
    (detect_step rsi_series overbought oversold) [].

(** A row of the price table. *)
Record row : Type := mkRow {
  Open : float64;
  High : float64;
  Low : float64;
  Close : float64
}.

(** [calculate_ohlc_average(row)], on exact values: it is used where
    only the lookup of the average or its being not-a-number matters;
    [Binary64.calculate_ohlc_average] is the same function with every
    operation rounded. *)
Definition calculate_ohlc_average (r : row) : float64 :=
  fdiv (fadd (fadd (fadd (Open r) (High r)) (Low r)) (Close r)) (Fin 4).

Record cycle : Type := mkCycle {
  start : Z;
  end_ : Z;
  cross_type : cross_kind;
  cross_rsi : float64
}.

(** The body of the loop of [create_cycles]. *)
Definition cycle_step (crosses : list cross) (data_length : Z)
  (cycles : list cycle) (i : Z) : result (list cycle) :=
  ci <- getitem crosses i ;;
  let start_idx := cross_index ci in
  end_idx <- (if i <? len crosses - 1
              then cn <- getitem crosses (i + 1) ;; Ok (cross_index cn - 1)
              else Ok (data_length - 1)) ;;
  Ok (cycles ++ [mkCycle start_idx end_idx (cross_type_of ci) (cross_value ci)]).

(** [create_cycles(crosses, data_length)] *)
Definition create_cycles (crosses : list cross) (data_length : Z)
  : result (list cycle) :=
  for_each (range 0 (len crosses)) (cycle_step crosses data_length) [].

Inductive color : Type :=
| green
| red.

(** The colour of one cycle, as [create_interactive_plot] computes it from
    the columns [OHLC_Avg] and [Close] of the table. *)
Definition cycle_color (data : list row) (c : cycle) : result color :=
  cross_price <- iloc (map calculate_ohlc_average data) (start c) ;;
  last_close <- iloc (map Close data) (end_ c) ;;
  Ok (if fgtb last_close cross_price then green else red).

(** [cycle_colors], the list built by the first loop of
    [create_interactive_plot]. *)
Definition cycle_colors (data : list row) (cycles : list cycle)
  : result (list color) :=
  for_each cycles
    (fun colors c => col <- cycle_color data c ;; Ok (colors ++ [col])) [].

(** [green_cycles] of [main]: the number of cycles whose last close is
    above the average price of the bar of the cross. *)
Definition green_cycles (data : list row) (cycles : list cycle) : result Z :=
  for_each cycles
    (fun n c =>
       last_close <- iloc (map Close data) (end_ c) ;;
       cross_price <- iloc (map calculate_ohlc_average data) (start c) ;;
       Ok (if fgtb last_close cross_price then n + 1 else n)) 0.

(** [red_cycles] of [main] *)
Definition red_cycles (data : list row) (cycles : list cycle) : result Z :=
  g <- green_cycles data cycles ;; Ok (len cycles - g).

(** The outcome of one run of [main]. *)
Inductive report : Type :=
| NoData
| NoCrosses
| Report (crosses : list cross) (cycles : list cycle)
    (green_count red_count : Z)
| Failed (e : exn).

(** The analysis of [main], from the downloaded table to the metrics. *)
Definition analyse (data : list row) (rsi_period : Z)
  (overbought oversold : Q) : result report :=
  match data with
  | [] => Ok NoData
  | _ =>
      rsi <- calculate_rsi (map Close data) rsi_period ;;
      crosses <- detect_rsi_crosses rsi overbought oversold ;;
      match crosses with
      | [] => Ok NoCrosses
      | _ =>
          cycles <- create_cycles crosses (len data) ;;
          green_count <- green_cycles data cycles ;;
          let red_count := len cycles - green_count in
          Ok (Report crosses cycles green_count red_count)
      end
  end.

(** [main] catches every exception of the analysis and reports it. *)
Definition main_analysis (data : list row) (rsi_period : Z)
  (overbought oversold : Q) : report :=
  match analyse data rsi_period overbought oversold with
  | Ok r => r
  | Raise e => Failed e
  end.

(** The events the scan adds at position [i], as a function of the two
    samples it reads there. *)
Definition cross_at (rsi_series : list float64) (overbought oversold : Q)
  (i : nat) : list cross :=
  match nth_error rsi_series (i - 1), nth_error rsi_series i with
  | Some prev_rsi, Some current_rsi =>
      if fleb prev_rsi (Fin overbought) && fgtb current_rsi (Fin overbought)
      then [(Z.of_nat i, overbought_cross, current_rsi)]
      else if fgeb prev_rsi (Fin oversold) && fltb current_rsi (Fin oversold)
      then [(Z.of_nat i, oversold_cross, current_rsi)]
      else []
  | _, _ => []
  end.

(** The cycle built from the cross at position [k]. *)
Definition cycle_at (crosses : list cross) (data_length : Z) (k : nat)
  : list cycle :=
  match nth_error crosses k with
  | Some ci =>
      [mkCycle (cross_index ci)
         (match nth_error crosses (S k) with
          | Some cn => cross_index cn - 1
          | None => data_length - 1
          end)
         (cross_type_of ci) (cross_value ci)]
  | None => []
  end.

(** ** The order of the extended reals, as propositions *)

Definition defined (x : float64) : Prop := x <> NaN.

Definition float_lt (x y : float64) : Prop :=
  match x, y with
  | NaN, _ | _, NaN => False
  | NInf, NInf => False
  | NInf, _ => True
  | Fin _, NInf => False
  | Fin a, Fin b => (a < b)%Q
  | Fin _, PInf => True
  | PInf, _ => False
  end.

Definition float_le (x y : float64) : Prop :=
  match x, y with
  | NaN, _ | _, NaN => False
  | NInf, _ => True
  | Fin _, NInf => False
  | Fin a, Fin b => (a <= b)%Q
  | Fin _, PInf => True
  | PInf, PInf => True
  | PInf, _ => False
  end.

(** ** The statement of the specification, in its own words *)

(** The cross detector of the specification: at position [i] nothing when
    either sample is undefined, otherwise an overbought event when
    [prev <= overbought] and [curr > overbought], and an oversold event
    when [prev >= oversold] and [curr < oversold]. *)
Definition spec_events_at (rsi_series : list float64) (overbought oversold : Q)
  (i : nat) : list cross :=
  match nth_error rsi_series (i - 1), nth_error rsi_series i with
  | Some prev, Some curr =>
      if is_nan prev || is_nan curr then []
      else
        (if fleb prev (Fin overbought) && fgtb curr (Fin overbought)
         then [(Z.of_nat i, overbought_cross, curr)] else [])
        ++
        (if fgeb prev (Fin oversold) && fltb curr (Fin oversold)
         then [(Z.of_nat i, oversold_cross, curr)] else [])
  | _, _ => []
  end.

Definition spec_detect (rsi_series : list float64) (overbought oversold : Q)
  : list cross :=
  flat_map (spec_events_at rsi_series overbought oversold)
    (seq 1 (length rsi_series - 1)).

(** ** Auxiliary definitions used by the statements *)

Definition scenario_rsi : list float64 :=
  [Fin 65; Fin 72; Fin 68; Fin 28; Fin 35].

(** The end index the builder gives to the cycle opened by the cross at
    position [k]. *)
Definition end_after (crosses : list cross) (data_length : Z) (k : nat) : Z :=
  match nth_error crosses (S k) with
  | Some cn => cross_index cn - 1
  | None => data_length - 1
  end.

Definition scenario_crosses : list cross :=
  [(1, overbought_cross, Fin 72); (3, oversold_cross, Fin 28)].

(** The colour of a cycle whose two indices are in range. *)
Definition sign_of (data : list row) (c : cycle) : color :=
  if fgtb (nth (Z.to_nat (end_ c)) (map Close data) NaN)
          (nth (Z.to_nat (start c)) (map calculate_ohlc_average data) NaN)
  then green else red.

Definition color_eq_dec (a b : color) : {a = b} + {a <> b}.
Proof. decide equality. Defined.

Definition in_range (data : list row) (c : cycle) : Prop :=
  (0 <= start c < len data) /\ (0 <= end_ c < len data).

(** The inputs of the two rolling averages. *)
Definition gains_of (prices : list float64) : list float64 :=
  where_ (fun d => fgtb d (Fin 0)) (Fin 0) (diff prices).

Definition losses_of (prices : list float64) : list float64 :=
  map fneg (where_ (fun d => fltb d (Fin 0)) (Fin 0) (diff prices)).

(** The value of the RSI at position [i], from the two window means. *)
Definition rsi_at (prices : list float64) (w i : nat) : float64 :=
  rsi_of_rs (fdiv (window_mean w (window_at w i (gains_of prices)))
                  (window_mean w (window_at w i (losses_of prices)))).

(** A finite value that is not negative. *)
Definition nonneg_fin (x : float64) : Prop :=
  exists q, x = Fin q /\ (0 <= q)%Q.

Definition rising_prices : list Q := [1; 2; 3]%Q.

Definition two_rows : list row :=
  [mkRow (Fin 1) (Fin 1) (Fin 1) (Fin 1); mkRow (Fin 2) (Fin 2) (Fin 2) (Fin 2)].

(** ** The plot and the statistics *)

(** [xs[a:b]] and [data.iloc[a:b]]: a negative bound counts from the end,
    and both bounds are clipped to the sequence. *)
Definition slice_bound {A : Type} (xs : list A) (i : Z) : Z :=
  if i <? 0 then Z.max 0 (len xs + i) else Z.min i (len xs).

Definition slice {A : Type} (xs : list A) (a b : Z) : list A :=
  let a' := slice_bound xs a in
  let b' := slice_bound xs b in
  firstn (Z.to_nat (b' - a')) (skipn (Z.to_nat a') xs).

(** The rows of the candlestick trace that [create_interactive_plot]
    draws for one cycle: [data.iloc[start_idx:end_idx + 1]] with
    [end_idx = min(cycle['end'], len(data) - 1)]. *)
Definition cycle_data (data : list row) (c : cycle) : list row :=
  let start_idx := start c in
  let end_idx := Z.min (end_ c) (len data - 1) in
  slice data start_idx (end_idx + 1).

(** [cross_prices] of [create_interactive_plot]: the average price at
    each cross whose index is below the length of the table. *)
Definition cross_prices (data : list row) (crosses : list cross)
  : result (list float64) :=
  for_each crosses
    (fun prices c =>
       if cross_index c <? len data
       then p <- iloc (map calculate_ohlc_average data) (cross_index c) ;;
            Ok (prices ++ [p])
       else Ok prices) [].

(** [cross_rsi] of [create_interactive_plot] *)
Definition cross_rsi_points (data : list row) (crosses : list cross)
  : list float64 :=
  map cross_value (filter (fun c => cross_index c <? len data) crosses).

(** [sum(cycle['end'] - cycle['start'] + 1 for cycle in cycles)] *)
Definition total_cycle_length (cycles : list cycle) : Z :=
  fold_left (fun total c => total + (end_ c - start c + 1)) cycles 0.

(** The block of [main] under [if cycles:]: the win rate
    [(green_cycles / len(cycles)) * 100] and the average cycle length;
    nothing is computed for an empty cycle list. *)
Definition cycle_statistics (green_count : Z) (cycles : list cycle)
  : option (Q * Q) :=
  match cycles with
  | [] => None
  | _ =>
      let win_rate :=
        (inject_Z green_count / inject_Z (len cycles) * 100)%Q in
      let avg_cycle_length :=
        (inject_Z (total_cycle_length cycles) / inject_Z (len cycles))%Q in
      Some (win_rate, avg_cycle_length)
  end.

(** Consecutive prices all rising, all falling, or all equal. *)
Fixpoint chain (R : Q -> Q -> Prop) (prev : Q) (rest : list Q) : Prop :=
  match rest with
  | [] => True
  | x :: tl => R prev x /\ chain R x tl
  end.



Definition flat (prices : list Q) : Prop :=
  match prices with [] => True | p :: tl => chain Qeq p tl end.

(** The bounds of a cycle lie in a table of [n] rows, in order. *)
Definition cycle_within (n : Z) (c : cycle) : Prop :=
  0 <= start c /\ start c <= end_ c /\ end_ c < n.

(** The cycles the builder returns, one per cross. *)
Definition cycles_of (crosses : list cross) (data_length : Z) : list cycle :=
  flat_map (cycle_at crosses data_length) (seq 0 (length crosses)).

(** The three fields a cycle copies from its cross. *)
Definition cross_of_cycle (c : cycle) : cross :=
  (start c, cross_type c, cross_rsi c).

(** A table in which the closes 1, 2, 1, 5, 5, 5, 6 give, with period 1,
    an RSI that falls through 30 at index 2 and rises through 70 at
    index 3. *)
Definition sample_rows : list row :=
  map (fun q => mkRow (Fin q) (Fin (q + 1)) (Fin (q - 1)) (Fin q))
    [1; 2; 1; 5; 5; 5; 6]%Q.

(** A finite value that is positive, and one that is zero. *)
Definition pos_fin (x : float64) : Prop :=
  exists q, x = Fin q /\ (0 < q)%Q.

Definition zero_fin (x : float64) : Prop :=
  exists q, x = Fin q /\ (q == 0)%Q.

(** A value that is undefined or equal to [v]. *)
Definition nan_or (v : Q) (x : float64) : Prop :=
  x = NaN \/ exists q, x = Fin q /\ (q == v)%Q.



Definition flat_prices_5 : list Q := [10; 10; 10; 10; 10]%Q.

(** The two indices of a cycle are ones the table accepts, negative
    ones counting from the end. *)
Definition accepted (data : list row) (c : cycle) : Prop :=
  (- len data <= start c < len data) /\ (- len data <= end_ c < len data).

(** ** The trailing averages, in the words of the specification *)

(** The bar-to-bar close delta; the first bar has no predecessor and
    counts, as in the code, as no change. *)
Definition close_delta (prices : list Q) (j : nat) : Q :=
  match j with
  | O => 0
  | S k => nth (S k) prices 0 - nth k prices 0
  end%Q.

(** A positive delta, a non-positive one counting as 0; and the absolute
    value of a negative delta, a non-negative one counting as 0. *)
Definition gain_part (d : Q) : Q := (if Qlt_le_dec 0 d then d else 0)%Q.

Definition loss_part (d : Q) : Q := (if Qlt_le_dec d 0 then - d else 0)%Q.

Definition window_sum (f : nat -> Q) (first size : nat) : Q :=
  fold_right Qplus 0%Q (map f (seq first size)).

(** The arithmetic means over the [period] bars that end at bar [i]. *)
Definition spec_avg_gain (prices : list Q) (period i : nat) : Q :=
  (window_sum (fun j => gain_part (close_delta prices j)) (i + 1 - period)
     period / inject_Z (Z.of_nat period))%Q.

Definition spec_avg_loss (prices : list Q) (period i : nat) : Q :=
  (window_sum (fun j => loss_part (close_delta prices j)) (i + 1 - period)
     period / inject_Z (Z.of_nat period))%Q.

(** ** The classifier on binary64 values *)

Module Binary64.

(** A row of the price table, its four prices as binary64 values. *)
Record row : Type := mkRow {
  Open : float;
  High : float;
  Low : float;
  Close : float
}.

(** [calculate_ohlc_average(row)]: three additions and a division, each
    rounded to binary64, in the order Python evaluates them. *)
Definition calculate_ohlc_average (r : row) : float :=
  (((Open r + High r) + Low r) + Close r) / 4.

(** The colour of one cycle, as [create_interactive_plot] computes it:
    [last_close > cross_price]. *)
Definition cycle_color (data : list row) (c : cycle) : result color :=
  cross_price <- iloc (map calculate_ohlc_average data) (start c) ;;
  last_close <- iloc (map Close data) (end_ c) ;;
  Ok (if ltb cross_price last_close then green else red).

Definition cycle_colors (data : list row) (cycles : list cycle)
  : result (list color) :=
  for_each cycles
    (fun colors c => col <- cycle_color data c ;; Ok (colors ++ [col])) [].

(** [green_cycles] and [red_cycles] of [main] *)
Definition green_cycles (data : list row) (cycles : list cycle) : result Z :=
  for_each cycles
    (fun n c =>
       last_close <- iloc (map Close data) (end_ c) ;;
       cross_price <- iloc (map calculate_ohlc_average data) (start c) ;;
       Ok (if ltb cross_price last_close then (n + 1)%Z else n)) 0%Z.

Definition red_cycles (data : list row) (cycles : list cycle) : result Z :=
  g <- green_cycles data cycles ;; Ok (len cycles - g)%Z.

(** The real number a finite binary64 value stands for. *)
Definition exact (x : float) : option Q :=
  match Prim2SF x with
  | S754_zero _ => Some 0%Q
  | S754_finite s m e =>
      Some ((if s then - inject_Z (Zpos m) else inject_Z (Zpos m)) * 2 ^ e)%Q
  | _ => None
  end.

(** The colour of a cycle whose two indices are in range. *)
Definition sign_of (data : list row) (c : cycle) : color :=
  if ltb (nth (Z.to_nat (start c)) (map calculate_ohlc_average data) nan)
         (nth (Z.to_nat (end_ c)) (map Close data) nan)
  then green else red.

Definition in_range (data : list row) (c : cycle) : Prop :=
  (0 <= start c < len data)%Z /\ (0 <= end_ c < len data)%Z.

(** Two bars on which rounding decides the colour: the four prices of
    the first have the exact mean of the close of the second. *)
Definition tie_rows : list row :=
  [mkRow 0x1.d47ae147ae148p+3 0x1.ep+3 0x1.c0a3d70a3d70ap+3
     0x1.d51eb851eb852p+3;
   mkRow 0x1.d28f5c28f5c29p+3 0x1.d28f5c28f5c29p+3 0x1.d28f5c28f5c29p+3
     0x1.d28f5c28f5c29p+3].

Definition tie_cycle : cycle := mkCycle 0 1 overbought_cross (Fin 72).

End Binary64.

(** * Properties *)

(** ** Loops and indexing *)

Lemma getitem_nat {A : Type} (xs : list A) (i : nat) (x : A) :
  nth_error xs i = Some x -> getitem xs (Z.of_nat i) = Ok x.
Proof.
  intros H. unfold getitem.
  destruct (Z.ltb_spec (Z.of_nat i) 0) as [Hneg | _]; [lia |].
  destruct (Z.ltb_spec (Z.of_nat i) 0) as [Hneg | _]; [lia |].
  now rewrite Nat2Z.id, H.
Qed.

Lemma range_from_nat (a n : nat) :
  range (Z.of_nat a) (Z.of_nat (a + n)) = map Z.of_nat (seq a n).
Proof.
  unfold range.
  replace (Z.to_nat (Z.of_nat (a + n) - Z.of_nat a)) with n by lia.
  replace (seq a n) with (map (fun k => (a + k)%nat) (seq 0 n)).
  - rewrite map_map. apply map_ext. intros k. lia.
  - clear. revert a. induction n as [| n IH]; intros a; [reflexivity |].
    simpl. rewrite Nat.add_0_r. f_equal.
    rewrite <- seq_shift, map_map. rewrite <- (IH (S a)).
    apply map_ext. intros k. lia.
Qed.

Lemma range_len {A : Type} (xs : list A) :
  range 0 (len xs) = map Z.of_nat (seq 0 (length xs)).
Proof. exact (range_from_nat 0 (length xs)). Qed.

Lemma range_1_len {A : Type} (xs : list A) :
  range 1 (len xs) = map Z.of_nat (seq 1 (length xs - 1)).
Proof.
  destruct xs as [| x tl]; [reflexivity |].
  unfold len. simpl length. rewrite Nat.sub_succ, Nat.sub_0_r.
  exact (range_from_nat 1 (length tl)).
Qed.

(** A loop whose body only appends to its accumulator and never raises
    computes a [flat_map]. *)
Lemma for_each_appends {A B : Type} (xs : list A)
  (body : list B -> A -> result (list B)) (f : A -> list B) :
  (forall s x, In x xs -> body s x = Ok (s ++ f x)) ->
  forall s, for_each xs body s = Ok (s ++ flat_map f xs).
Proof.
  induction xs as [| x tl IH]; intros Hbody s; simpl.
  - now rewrite app_nil_r.
  - rewrite (Hbody s x (or_introl eq_refl)). simpl.
    rewrite IH by (intros; apply Hbody; now right).
    now rewrite app_assoc.
Qed.

Lemma flat_map_map {A B C : Type} (g : A -> B) (f : B -> list C)
  (xs : list A) :
  flat_map f (map g xs) = flat_map (fun x => f (g x)) xs.
Proof.
  induction xs as [| x tl IH]; simpl; [reflexivity | now rewrite IH].
Qed.

(** ** Comparisons *)

Lemma Qltb_lt (a b : Q) : Qltb a b = true <-> (a < b)%Q.
Proof.
  unfold Qltb. rewrite negb_true_iff. split; intros H.
  - apply Qnot_le_lt. intros Hle. apply Qle_bool_iff in Hle. congruence.
  - destruct (Qle_bool b a) eqn:E; [| reflexivity].
    apply Qle_bool_iff in E. exfalso. exact (Qlt_not_le _ _ H E).
Qed.

Lemma fltb_lt (x y : float64) : fltb x y = true <-> float_lt x y.
Proof.
  destruct x, y; simpl; try (split; [discriminate | tauto]); try tauto.
  apply Qltb_lt.
Qed.

Lemma fleb_le (x y : float64) : fleb x y = true <-> float_le x y.
Proof.
  destruct x, y; simpl; try (split; [discriminate | tauto]); try tauto.
  apply Qle_bool_iff.
Qed.

Lemma float_lt_defined (x y : float64) :
  float_lt x y -> defined x /\ defined y.
Proof. destruct x, y; simpl; unfold defined; (tauto || (split; discriminate)). Qed.

Lemma float_le_defined (x y : float64) :
  float_le x y -> defined x /\ defined y.
Proof. destruct x, y; simpl; unfold defined; (tauto || (split; discriminate)). Qed.

(** The two crossing conditions cannot hold together when the oversold
    level is below the overbought level. *)
Lemma crossings_exclusive (prev curr : float64) (overbought oversold : Q) :
  (oversold < overbought)%Q ->
  float_lt (Fin overbought) curr ->
  float_lt curr (Fin oversold) ->
  False.
Proof.
  intros Hlv Hup Hdown. destruct curr; simpl in *; try tauto. lra.
Qed.

(** ** The cross detector *)

Section Detector.

Variable rsi_series : list float64.
Variables overbought oversold : Q.

Lemma detect_step_appends (s : list cross) (i : nat) :
  In i (seq 1 (length rsi_series - 1)) ->
  detect_step rsi_series overbought oversold s (Z.of_nat i)
  = Ok (s ++ cross_at rsi_series overbought oversold i).
Proof.
  intros Hi. apply in_seq in Hi.
  destruct (nth_error rsi_series i) as [cur |] eqn:Ecur.
  2: { apply nth_error_None in Ecur. lia. }
  destruct (nth_error rsi_series (i - 1)) as [prev |] eqn:Eprev.
  2: { apply nth_error_None in Eprev. lia. }
  unfold detect_step, iloc, cross_at.
  rewrite (getitem_nat _ _ _ Ecur). cbn [bind].
  replace (Z.of_nat i - 1) with (Z.of_nat (i - 1)) by lia.
  rewrite (getitem_nat _ _ _ Eprev). cbn [bind].
  rewrite Ecur, Eprev.
  destruct (fleb prev (Fin overbought) && fgtb cur (Fin overbought));
    [reflexivity |].
  destruct (fgeb prev (Fin oversold) && fltb cur (Fin oversold));
    [reflexivity |].
  now rewrite app_nil_r.
Qed.

(** The scan never raises, and its result is the concatenation of what
    each position contributes, in the order of the positions. *)
Lemma detect_rsi_crosses_eq :
  detect_rsi_crosses rsi_series overbought oversold
  = Ok (flat_map (cross_at rsi_series overbought oversold)
          (seq 1 (length rsi_series - 1))).
Proof.
  unfold detect_rsi_crosses. rewrite range_1_len.
  rewrite (for_each_appends _ _
             (fun z => cross_at rsi_series overbought oversold (Z.to_nat z))).
  - simpl app. f_equal. rewrite flat_map_map.
    apply flat_map_ext. intros i. now rewrite Nat2Z.id.
  - intros s z Hz. apply in_map_iff in Hz. destruct Hz as [i [<- Hi]].
    rewrite Nat2Z.id. now apply detect_step_appends.
Qed.

Lemma cross_at_index (i : nat) (c : cross) :
  In c (cross_at rsi_series overbought oversold i) ->
  cross_index c = Z.of_nat i.
Proof.
  unfold cross_at.
  destruct (nth_error rsi_series (i - 1)) as [prev |]; [| contradiction].
  destruct (nth_error rsi_series i) as [cur |]; [| contradiction].
  destruct (fleb prev (Fin overbought) && fgtb cur (Fin overbought)).
  - intros [<- | []]. reflexivity.
  - destruct (fgeb prev (Fin oversold) && fltb cur (Fin oversold)).
    + intros [<- | []]. reflexivity.
    + contradiction.
Qed.

Lemma cross_at_length (i : nat) :
  (length (cross_at rsi_series overbought oversold i) <= 1)%nat.
Proof.
  unfold cross_at.
  destruct (nth_error rsi_series (i - 1)) as [prev |]; [| simpl; lia].
  destruct (nth_error rsi_series i) as [cur |]; [| simpl; lia].
  destruct (fleb prev (Fin overbought) && fgtb cur (Fin overbought));
    [simpl; lia |].
  destruct (fgeb prev (Fin oversold) && fltb cur (Fin oversold));
    simpl; lia.
Qed.

(** What the scan contributes at one position, as a proposition. *)
Lemma cross_at_spec (i : nat) (c : cross) :
  (oversold < overbought)%Q ->
  In c (cross_at rsi_series overbought oversold i) <->
  exists prev curr,
    nth_error rsi_series (i - 1) = Some prev /\
    nth_error rsi_series i = Some curr /\
    defined prev /\ defined curr /\
    cross_index c = Z.of_nat i /\ cross_value c = curr /\
    ((cross_type_of c = overbought_cross /\
      float_le prev (Fin overbought) /\ float_lt (Fin overbought) curr) \/
     (cross_type_of c = oversold_cross /\
      float_le (Fin oversold) prev /\ float_lt curr (Fin oversold))).
Proof.
  intros Hlv. unfold cross_at.
  destruct (nth_error rsi_series (i - 1)) as [prev |].
  2: { split; [contradiction | intros (p & q & H & _); discriminate]. }
  destruct (nth_error rsi_series i) as [cur |].
  2: { split; [contradiction | intros (p & q & _ & H & _); discriminate]. }
  unfold fgtb, fgeb. split.
  - destruct (fleb prev (Fin overbought) && fltb (Fin overbought) cur) eqn:Eup.
    + apply andb_prop in Eup. destruct Eup as [E1 E2].
      apply fleb_le in E1. apply fltb_lt in E2.
      intros [<- | []]. exists prev, cur.
      pose proof (float_le_defined _ _ E1). pose proof (float_lt_defined _ _ E2).
      repeat split; try tauto.
      all: left; repeat split; assumption.
    + destruct (fleb (Fin oversold) prev && fltb cur (Fin oversold)) eqn:Edown;
        [| contradiction].
      apply andb_prop in Edown. destruct Edown as [E3 E4].
      apply fleb_le in E3. apply fltb_lt in E4.
      intros [<- | []]. exists prev, cur.
      pose proof (float_le_defined _ _ E3). pose proof (float_lt_defined _ _ E4).
      repeat split; try tauto.
      all: right; repeat split; assumption.
  - intros (p & q & Hp & Hq & _ & _ & Hidx & Hval & Hk).
    injection Hp as <-. injection Hq as <-.
    destruct c as [[ci ck] cv].
    unfold cross_index, cross_value, cross_type_of in *. cbn [fst snd] in *.
    subst ci cv.
    destruct Hk as [(-> & Ha & Hb) | (-> & Ha & Hb)].
    + apply fleb_le in Ha. apply fltb_lt in Hb. rewrite Ha, Hb. simpl.
      now left.
    + destruct (fltb (Fin overbought) cur) eqn:E2.
      * apply fltb_lt in E2.
        exfalso. exact (crossings_exclusive prev cur _ _ Hlv E2 Hb).
      * rewrite andb_false_r.
        apply fleb_le in Ha. apply fltb_lt in Hb. rewrite Ha, Hb. simpl.
        now left.
Qed.

End Detector.

(** A [flat_map] over consecutive positions that yields at most one
    element per position, keyed by the position, is sorted by key. *)
Lemma flat_map_seq_sorted {B : Type} (key : B -> Z) (f : nat -> list B) :
  (forall i c, In c (f i) -> key c = Z.of_nat i) ->
  (forall i, (length (f i) <= 1)%nat) ->
  forall n a,
    StronglySorted (fun x y => key x < key y) (flat_map f (seq a n)).
Proof.
  intros Hkey Hlen. induction n as [| n IH]; intros a; simpl.
  - constructor.
  - specialize (IH (S a)).
    pose proof (Hlen a) as Hla. pose proof (Hkey a) as Hka.
    destruct (f a) as [| c [| c' tl]]; simpl in *; [assumption | | lia].
    constructor; [assumption |].
    apply Forall_forall. intros y Hy.
    apply in_flat_map in Hy. destruct Hy as [j [Hj Hyj]].
    apply in_seq in Hj. rewrite (Hka c (or_introl eq_refl)), (Hkey j y Hyj).
    lia.
Qed.

Lemma sorted_map_key {B : Type} (key : B -> Z) (xs : list B) :
  StronglySorted (fun x y => key x < key y) xs ->
  StronglySorted Z.lt (map key xs).
Proof.
  induction 1 as [| x tl Htl IH Hall]; simpl; constructor; [assumption |].
  apply Forall_forall. intros k Hk. apply in_map_iff in Hk.
  destruct Hk as [y [<- Hy]]. rewrite Forall_forall in Hall. now apply Hall.
Qed.

Lemma sorted_lt_NoDup (ks : list Z) : StronglySorted Z.lt ks -> NoDup ks.
Proof.
  induction 1 as [| k tl Htl IH Hall]; constructor; [| assumption].
  intros Hin. rewrite Forall_forall in Hall. specialize (Hall k Hin). lia.
Qed.

Lemma cross_at_is_spec (rsi_series : list float64) (overbought oversold : Q)
  (i : nat) :
  (oversold < overbought)%Q ->
  cross_at rsi_series overbought oversold i
  = spec_events_at rsi_series overbought oversold i.
Proof.
  intros Hlv. unfold cross_at, spec_events_at.
  destruct (nth_error rsi_series (i - 1)) as [prev |]; [| reflexivity].
  destruct (nth_error rsi_series i) as [cur |]; [| reflexivity].
  destruct prev as [| | p |]; try reflexivity;
    destruct cur as [| | c |]; try reflexivity;
    unfold fgtb, fgeb; cbn [is_nan orb];
    match goal with
    | |- (if ?b1 then _ else if ?b2 then _ else _) = _ =>
        destruct b1 eqn:E1; destruct b2 eqn:E2; try reflexivity
    end;
    exfalso;
    try (apply andb_prop in E1; destruct E1 as [_ E1]; apply fltb_lt in E1);
    try (apply andb_prop in E2; destruct E2 as [_ E2]; apply fltb_lt in E2);
    first [ exact (crossings_exclusive NaN _ _ _ Hlv E1 E2)
          | simpl in *; contradiction ].
Qed.

Lemma spec_events_at_length (rsi_series : list float64)
  (overbought oversold : Q) (i : nat) :
  (oversold < overbought)%Q ->
  (length (spec_events_at rsi_series overbought oversold i) <= 1)%nat.
Proof.
  intros Hlv. rewrite <- cross_at_is_spec by assumption.
  apply cross_at_length.
Qed.

(** C1. With [oversold < overbought] the cross detector returns (it never
    raises) exactly the sequence the specification describes: scanning
    [i] from 1 to [N-1] with [prev = RSI[i-1]] and [curr = RSI[i]], an
    event is in the result exactly when both samples are defined, its
    index is [i], its value is [curr], and either it is an overbought
    event with [prev <= overbought < curr] or an oversold event with
    [curr < oversold <= prev]; the events are in ascending index order. *)
Theorem detect_rsi_crosses_spec (rsi_series : list float64)
  (overbought oversold : Q) :
  (oversold < overbought)%Q ->
  exists crosses,
    detect_rsi_crosses rsi_series overbought oversold = Ok crosses /\
    crosses = spec_detect rsi_series overbought oversold /\
    (forall c,
        In c crosses <->
        exists i prev curr,
          (1 <= i < length rsi_series)%nat /\
          nth_error rsi_series (i - 1) = Some prev /\
          nth_error rsi_series i = Some curr /\
          defined prev /\ defined curr /\
          cross_index c = Z.of_nat i /\ cross_value c = curr /\
          ((cross_type_of c = overbought_cross /\
            float_le prev (Fin overbought) /\
            float_lt (Fin overbought) curr) \/
           (cross_type_of c = oversold_cross /\
            float_le (Fin oversold) prev /\
            float_lt curr (Fin oversold)))) /\
    StronglySorted (fun a b => cross_index a < cross_index b) crosses.
Proof.
  intros Hlv. eexists. split; [apply detect_rsi_crosses_eq |].
  split; [| split].
  - unfold spec_detect. apply flat_map_ext. intros i.
    now apply cross_at_is_spec.
  - intros c. rewrite in_flat_map. split.
    + intros [i [Hi Hc]]. apply in_seq in Hi.
      apply cross_at_spec in Hc; [| assumption].
      destruct Hc as (prev & curr & H).
      exists i, prev, curr. split; [lia | exact H].
    + intros (i & prev & curr & Hi & H).
      exists i. split; [apply in_seq; lia |].
      apply cross_at_spec; [assumption |]. now exists prev, curr.
  - apply flat_map_seq_sorted.
    + apply cross_at_index.
    + apply cross_at_length.
Qed.

Lemma detect_rsi_crosses_spec_witness :
  exists crosses,
    detect_rsi_crosses scenario_rsi 70 30 = Ok crosses /\
    crosses = spec_detect scenario_rsi 70 30 /\
    (forall c,
        In c crosses <->
        exists i prev curr,
          (1 <= i < length scenario_rsi)%nat /\
          nth_error scenario_rsi (i - 1) = Some prev /\
          nth_error scenario_rsi i = Some curr /\
          defined prev /\ defined curr /\
          cross_index c = Z.of_nat i /\ cross_value c = curr /\
          ((cross_type_of c = overbought_cross /\
            float_le prev (Fin 70) /\ float_lt (Fin 70) curr) \/
           (cross_type_of c = oversold_cross /\
            float_le (Fin 30) prev /\ float_lt curr (Fin 30)))) /\
    StronglySorted (fun a b => cross_index a < cross_index b) crosses.
Proof. apply (detect_rsi_crosses_spec scenario_rsi 70 30). reflexivity. Defined.

(** C6. With [oversold < overbought] the cross detector never emits two
    events at the same index and the indices of its events are strictly
    increasing; the two crossing conditions exclude each other at every
    position, so that the detector of the specification, which tests
    them independently, also emits at most one event per position. *)
Theorem detect_rsi_crosses_indices (rsi_series : list float64)
  (overbought oversold : Q) :
  (oversold < overbought)%Q ->
  exists crosses,
    detect_rsi_crosses rsi_series overbought oversold = Ok crosses /\
    NoDup (map cross_index crosses) /\
    StronglySorted Z.lt (map cross_index crosses) /\
    (forall prev curr,
        ~ ((float_le prev (Fin overbought) /\ float_lt (Fin overbought) curr) /\
           (float_le (Fin oversold) prev /\ float_lt curr (Fin oversold)))) /\
    (forall i,
        (length (spec_events_at rsi_series overbought oversold i) <= 1)%nat).
Proof.
  intros Hlv. eexists. split; [apply detect_rsi_crosses_eq |].
  assert (Hsorted :
    StronglySorted Z.lt
      (map cross_index
         (flat_map (cross_at rsi_series overbought oversold)
            (seq 1 (length rsi_series - 1))))).
  { apply sorted_map_key, flat_map_seq_sorted.
    - apply cross_at_index.
    - apply cross_at_length. }
  split; [now apply sorted_lt_NoDup |].
  split; [assumption |]. split.
  - intros prev curr [[_ Hup] [_ Hdown]].
    exact (crossings_exclusive prev curr _ _ Hlv Hup Hdown).
  - intros i. now apply spec_events_at_length.
Qed.

Lemma detect_rsi_crosses_indices_witness :
  exists crosses,
    detect_rsi_crosses scenario_rsi 70 30 = Ok crosses /\
    NoDup (map cross_index crosses) /\
    StronglySorted Z.lt (map cross_index crosses) /\
    (forall prev curr,
        ~ ((float_le prev (Fin 70) /\ float_lt (Fin 70) curr) /\
           (float_le (Fin 30) prev /\ float_lt curr (Fin 30)))) /\
    (forall i, (length (spec_events_at scenario_rsi 70 30 i) <= 1)%nat).
Proof. apply (detect_rsi_crosses_indices scenario_rsi 70 30). reflexivity. Defined.

(** ** The cycle builder *)

Section Builder.

Variable crosses : list cross.
Variable data_length : Z.

Lemma cycle_step_appends (s : list cycle) (k : nat) :
  In k (seq 0 (length crosses)) ->
  cycle_step crosses data_length s (Z.of_nat k)
  = Ok (s ++ cycle_at crosses data_length k).
Proof.
  intros Hk. apply in_seq in Hk.
  destruct (nth_error crosses k) as [ci |] eqn:Eci.
  2: { apply nth_error_None in Eci. lia. }
  unfold cycle_step, cycle_at. rewrite (getitem_nat _ _ _ Eci), Eci.
  cbn [bind]. unfold len.
  destruct (Z.ltb_spec (Z.of_nat k) (Z.of_nat (length crosses) - 1))
    as [Hnext | Hlast].
  - destruct (nth_error crosses (S k)) as [cn |] eqn:Ecn.
    2: { apply nth_error_None in Ecn. lia. }
    replace (Z.of_nat k + 1) with (Z.of_nat (S k)) by lia.
    now rewrite (getitem_nat _ _ _ Ecn).
  - destruct (nth_error crosses (S k)) as [cn |] eqn:Ecn; [| reflexivity].
    assert (S k < length crosses)%nat
      by (apply nth_error_Some; congruence).
    lia.
Qed.

(** The builder never raises: it maps each cross to one cycle. *)
Lemma create_cycles_eq :
  create_cycles crosses data_length
  = Ok (flat_map (cycle_at crosses data_length) (seq 0 (length crosses))).
Proof.
  unfold create_cycles. rewrite range_len.
  rewrite (for_each_appends _ _
             (fun z => cycle_at crosses data_length (Z.to_nat z))).
  - simpl app. f_equal. rewrite flat_map_map.
    apply flat_map_ext. intros k. now rewrite Nat2Z.id.
  - intros s z Hz. apply in_map_iff in Hz. destruct Hz as [k [<- Hk]].
    rewrite Nat2Z.id. now apply cycle_step_appends.
Qed.

End Builder.

Lemma cycle_at_cons (c : cross) (tl : list cross) (data_length : Z) (k : nat) :
  cycle_at (c :: tl) data_length (S k) = cycle_at tl data_length k.
Proof. reflexivity. Qed.

(** The cycle at position [k] of the result is the one built from the
    cross at position [k]. *)
Lemma nth_error_cycles (crosses : list cross) (data_length : Z) (k : nat) :
  nth_error
    (flat_map (cycle_at crosses data_length) (seq 0 (length crosses))) k
  = hd_error (cycle_at crosses data_length k).
Proof.
  revert k. induction crosses as [| c tl IH]; intros k.
  - simpl. unfold cycle_at. now destruct k.
  - cbn [length seq flat_map]. rewrite <- seq_shift, flat_map_map.
    rewrite (flat_map_ext _ (cycle_at tl data_length))
      by (intros j; apply cycle_at_cons).
    destruct k as [| k].
    + reflexivity.
    + rewrite cycle_at_cons. unfold cycle_at at 1. cbn [nth_error app].
      apply IH.
Qed.

Lemma length_cycles (crosses : list cross) (data_length : Z) :
  length (flat_map (cycle_at crosses data_length) (seq 0 (length crosses)))
  = length crosses.
Proof.
  induction crosses as [| c tl IH]; [reflexivity |].
  cbn [length seq flat_map]. rewrite <- seq_shift, flat_map_map.
  rewrite (flat_map_ext _ (cycle_at tl data_length))
    by (intros j; apply cycle_at_cons).
  unfold cycle_at at 1. cbn [nth_error app length]. now rewrite IH.
Qed.

Lemma sorted_adjacent (ks : list Z) (k : nat) (a b : Z) :
  StronglySorted Z.lt ks ->
  nth_error ks k = Some a -> nth_error ks (S k) = Some b -> a < b.
Proof.
  intros Hs. revert k. induction Hs as [| x tl Htl IH Hall]; intros k Ha Hb.
  - destruct k; discriminate.
  - destruct k as [| k].
    + injection Ha as <-. rewrite Forall_forall in Hall.
      apply Hall. change (nth_error tl 0 = Some b) in Hb.
      exact (nth_error_In tl 0 Hb).
    + apply (IH k); assumption.
Qed.

Lemma last_nth_error {A : Type} (xs : list A) (k : nat) (a d : A) :
  nth_error xs k = Some a -> nth_error xs (S k) = None -> last xs d = a.
Proof.
  revert k. induction xs as [| x tl IH]; intros k Ha Hn.
  - destruct k; discriminate.
  - destruct k as [| k].
    + injection Ha as <-. simpl in Hn. now destruct tl.
    + simpl in Ha, Hn. destruct tl as [| y tl']; [destruct k; discriminate |].
      change (last (x :: y :: tl') d) with (last (y :: tl') d).
      now apply (IH k).
Qed.

Lemma hd_cycle_at (crosses : list cross) (data_length : Z) (k : nat)
  (cy : cycle) :
  hd_error (cycle_at crosses data_length k) = Some cy ->
  exists ci,
    nth_error crosses k = Some ci /\
    cy = mkCycle (cross_index ci) (end_after crosses data_length k)
           (cross_type_of ci) (cross_value ci).
Proof.
  unfold cycle_at, end_after.
  destruct (nth_error crosses k) as [ci |]; [| discriminate].
  intros H. injection H as <-. now exists ci.
Qed.

(** C2. For a non-empty cross sequence with strictly increasing indices
    and a series length above the last cross index, the cycle builder
    returns one cycle per cross, in order: cycle [k] starts at the index
    of cross [k], carries its kind and value, and ends one before the
    index of cross [k+1], or at [N-1] for the last one.  Hence every
    cycle has [start <= end], consecutive cycles satisfy
    [end + 1 = start], and the last cycle ends at [N-1]. *)
Theorem create_cycles_spec (crosses : list cross) (data_length : Z) :
  crosses <> [] ->
  StronglySorted Z.lt (map cross_index crosses) ->
  last (map cross_index crosses) 0 < data_length ->
  exists cycles,
    create_cycles crosses data_length = Ok cycles /\
    length cycles = length crosses /\
    (forall k ci,
        nth_error crosses k = Some ci ->
        exists cy,
          nth_error cycles k = Some cy /\
          start cy = cross_index ci /\
          end_ cy = match nth_error crosses (S k) with
                    | Some cn => cross_index cn - 1
                    | None => data_length - 1
                    end /\
          cross_type cy = cross_type_of ci /\
          cross_rsi cy = cross_value ci) /\
    Forall (fun cy => start cy <= end_ cy) cycles /\
    (forall k cy cy',
        nth_error cycles k = Some cy ->
        nth_error cycles (S k) = Some cy' ->
        end_ cy + 1 = start cy') /\
    (exists cy,
        nth_error cycles (length cycles - 1) = Some cy /\
        end_ cy = data_length - 1).
Proof.
  intros Hne Hsorted Hlast.
  eexists. split; [apply create_cycles_eq |].
  set (cycles := flat_map (cycle_at crosses data_length)
                   (seq 0 (length crosses))).
  assert (Hnth : forall k,
             nth_error cycles k = hd_error (cycle_at crosses data_length k))
    by (intros k; apply nth_error_cycles).
  assert (Hlen : length cycles = length crosses) by apply length_cycles.
  split; [exact Hlen |]. split; [| split; [| split]].
  - intros k ci Hci. rewrite Hnth. unfold cycle_at. rewrite Hci.
    eexists. split; [reflexivity |]. simpl. repeat split.
  - apply Forall_forall. intros cy Hin.
    apply In_nth_error in Hin. destruct Hin as [k Hk].
    rewrite Hnth in Hk. apply hd_cycle_at in Hk.
    destruct Hk as (ci & Hci & ->). simpl. unfold end_after.
    pose proof (nth_error_map cross_index k crosses) as Hk.
    rewrite Hci in Hk. simpl in Hk.
    destruct (nth_error crosses (S k)) as [cn |] eqn:Ecn.
    + pose proof (nth_error_map cross_index (S k) crosses) as Hk'.
      rewrite Ecn in Hk'. simpl in Hk'.
      pose proof (sorted_adjacent _ _ _ _ Hsorted Hk Hk'). lia.
    + pose proof (nth_error_map cross_index (S k) crosses) as Hk'.
      rewrite Ecn in Hk'. simpl in Hk'.
      rewrite (last_nth_error _ _ _ 0 Hk Hk') in Hlast. lia.
  - intros k cy cy' Hk Hk'. rewrite Hnth in Hk, Hk'.
    apply hd_cycle_at in Hk. destruct Hk as (ci & Hci & ->).
    apply hd_cycle_at in Hk'. destruct Hk' as (cn & Hcn & ->).
    simpl. unfold end_after at 1. rewrite Hcn. lia.
  - destruct crosses as [| c0 tl] eqn:Ecr; [congruence |].
    rewrite Hlen. cbn [length]. rewrite Nat.sub_succ, Nat.sub_0_r.
    rewrite Hnth. unfold cycle_at.
    destruct (nth_error (c0 :: tl) (length tl)) as [ci |] eqn:Eci.
    2: { apply nth_error_None in Eci. simpl in Eci. lia. }
    destruct (nth_error (c0 :: tl) (S (length tl))) as [cn |] eqn:Ecn.
    { assert (S (length tl) < length (c0 :: tl))%nat
        by (apply nth_error_Some; congruence).
      simpl in *. lia. }
    eexists. split; reflexivity.
Qed.

Lemma create_cycles_spec_witness :
  exists cycles,
    create_cycles scenario_crosses 5 = Ok cycles /\
    length cycles = length scenario_crosses /\
    (forall k ci,
        nth_error scenario_crosses k = Some ci ->
        exists cy,
          nth_error cycles k = Some cy /\
          start cy = cross_index ci /\
          end_ cy = match nth_error scenario_crosses (S k) with
                    | Some cn => cross_index cn - 1
                    | None => 5 - 1
                    end /\
          cross_type cy = cross_type_of ci /\
          cross_rsi cy = cross_value ci) /\
    Forall (fun cy => start cy <= end_ cy) cycles /\
    (forall k cy cy',
        nth_error cycles k = Some cy ->
        nth_error cycles (S k) = Some cy' ->
        end_ cy + 1 = start cy') /\
    (exists cy,
        nth_error cycles (length cycles - 1) = Some cy /\
        end_ cy = 5 - 1).
Proof.
  apply (create_cycles_spec scenario_crosses 5).
  - discriminate.
  - simpl. repeat constructor.
  - reflexivity.
Defined.

(** C9 fails as stated: the builder given the empty cross sequence
    returns the empty cycle sequence, it raises nothing. *)
Lemma create_cycles_empty_returns :
  create_cycles [] 5 = Ok [] /\
  ~ (exists e, create_cycles [] 5 = Raise e).
Proof. split; [reflexivity | intros [e He]; discriminate]. Qed.

(** C8, as the code has it.  The cross detector never fails, whatever
    the two levels are: it returns the events of its scan. *)
Theorem detect_rsi_crosses_total (rsi_series : list float64)
  (overbought oversold : Q) :
  exists crosses,
    detect_rsi_crosses rsi_series overbought oversold = Ok crosses /\
    crosses = flat_map (cross_at rsi_series overbought oversold)
                (seq 1 (length rsi_series - 1)).
Proof. eexists. split; [apply detect_rsi_crosses_eq | reflexivity]. Qed.

(** C8 fails as stated: with the levels inverted ([overbought = 30],
    [oversold = 70]) the detector returns a cross sequence. *)
Lemma detect_rsi_crosses_inverted_returns :
  (30 <= 70)%Q /\
  detect_rsi_crosses scenario_rsi 30 70
  = Ok [(2, oversold_cross, Fin 68); (4, overbought_cross, Fin 35)] /\
  ~ (exists e, detect_rsi_crosses scenario_rsi 30 70 = Raise e).
Proof.
  split; [discriminate |]. split; [reflexivity |].
  intros [e He]. discriminate.
Qed.

(** C4, as the code has it.  On the series [65, 72, 68, 28, 35] with
    levels 70 and 30 the detector emits one overbought event at index 1
    and one oversold event at index 3, and the builder yields two cycles
    spanning [1,2] and [3,4]: a cycle starts at the index of its cross. *)
Theorem scenario_crosses_and_cycles :
  detect_rsi_crosses scenario_rsi 70 30
  = Ok [(1, overbought_cross, Fin 72); (3, oversold_cross, Fin 28)] /\
  create_cycles [(1, overbought_cross, Fin 72); (3, oversold_cross, Fin 28)] 5
  = Ok [mkCycle 1 2 overbought_cross (Fin 72);
        mkCycle 3 4 oversold_cross (Fin 28)].
Proof. split; reflexivity. Qed.

(** C4 fails as stated: the first cycle of the scenario spans [1,2], not
    [0,2]. *)
Lemma scenario_first_cycle_starts_at_cross :
  exists crosses cycles,
    detect_rsi_crosses scenario_rsi 70 30 = Ok crosses /\
    create_cycles crosses 5 = Ok cycles /\
    map (fun cy => (start cy, end_ cy)) cycles = [(1, 2); (3, 4)] /\
    map (fun cy => (start cy, end_ cy)) cycles <> [(0, 2); (3, 4)].
Proof.
  eexists. eexists. split; [reflexivity |]. split; [reflexivity |].
  split; [reflexivity | discriminate].
Qed.

(** ** The classifier *)

Lemma getitem_in_range {A : Type} (xs : list A) (i : Z) (d : A) :
  0 <= i < len xs -> getitem xs i = Ok (nth (Z.to_nat i) xs d).
Proof.
  intros Hi. unfold len in Hi.
  rewrite <- (Z2Nat.id i) at 1 by lia.
  apply getitem_nat. apply nth_error_nth'. lia.
Qed.

Section Classifier.

Variable data : list row.

Lemma cycle_color_in_range (c : cycle) :
  in_range data c -> cycle_color data c = Ok (sign_of data c).
Proof.
  intros [Hs He]. unfold cycle_color, iloc, sign_of.
  rewrite (getitem_in_range _ (start c) NaN)
    by (unfold len in *; now rewrite length_map).
  cbn [bind].
  rewrite (getitem_in_range _ (end_ c) NaN)
    by (unfold len in *; now rewrite length_map).
  reflexivity.
Qed.

Lemma cycle_colors_eq (cycles : list cycle) :
  Forall (in_range data) cycles ->
  cycle_colors data cycles = Ok (map (sign_of data) cycles).
Proof.
  intros Hall. unfold cycle_colors.
  rewrite (for_each_appends _ _ (fun c => [sign_of data c])).
  - reflexivity.
  - intros s c Hc. rewrite Forall_forall in Hall.
    now rewrite (cycle_color_in_range c (Hall c Hc)).
Qed.

Lemma green_cycles_from (cycles : list cycle) :
  Forall (in_range data) cycles ->
  forall n,
    for_each cycles
      (fun n c =>
         last_close <- iloc (map Close data) (end_ c) ;;
         cross_price <- iloc (map calculate_ohlc_average data) (start c) ;;
         Ok (if fgtb last_close cross_price then n + 1 else n)) n
    = Ok (n + Z.of_nat
                (count_occ color_eq_dec (map (sign_of data) cycles) green)).
Proof.
  induction 1 as [| c tl [Hs He] Htl IH]; intros n.
  - simpl. f_equal. lia.
  - cbn [for_each]. unfold iloc.
    rewrite (getitem_in_range _ (end_ c) NaN)
      by (unfold len in *; now rewrite length_map).
    cbn [bind].
    rewrite (getitem_in_range _ (start c) NaN)
      by (unfold len in *; now rewrite length_map).
    cbn [bind]. unfold iloc in IH. rewrite IH.
    cbn [map].
    replace (sign_of data c) with
      (if fgtb (nth (Z.to_nat (end_ c)) (map Close data) NaN)
               (nth (Z.to_nat (start c))
                  (map calculate_ohlc_average data) NaN)
       then green else red) by reflexivity.
    destruct (fgtb _ _).
    + rewrite count_occ_cons_eq by reflexivity. f_equal. lia.
    + rewrite count_occ_cons_neq by discriminate. reflexivity.
Qed.

End Classifier.

Lemma count_green_red (colors : list color) :
  (count_occ color_eq_dec colors green + count_occ color_eq_dec colors red
   = length colors)%nat.
Proof.
  induction colors as [| c tl IH]; [reflexivity |].
  destruct c; simpl; lia.
Qed.

(** ** The RSI engine *)

Lemma length_diff_from (prev : float64) (rest : list float64) :
  length (diff_from prev rest) = length rest.
Proof.
  revert prev. induction rest as [| x tl IH]; intros prev; simpl;
    [reflexivity | now rewrite IH].
Qed.

Lemma length_diff (s : list float64) : length (diff s) = length s.
Proof. destruct s; simpl; [reflexivity | now rewrite length_diff_from]. Qed.

Lemma length_where (cond : float64 -> bool) (other : float64)
  (s : list float64) :
  length (where_ cond other s) = length s.
Proof. apply length_map. Qed.

Lemma map2_map_seq {A B C : Type} (f : A -> B -> C) (g : nat -> A)
  (h : nat -> B) (ns : list nat) :
  map2 f (map g ns) (map h ns) = map (fun i => f (g i) (h i)) ns.
Proof. induction ns as [| n tl IH]; simpl; [reflexivity | now rewrite IH]. Qed.


Lemma length_gains_of (prices : list float64) :
  length (gains_of prices) = length prices.
Proof. unfold gains_of. now rewrite length_where, length_diff. Qed.

Lemma length_losses_of (prices : list float64) :
  length (losses_of prices) = length prices.
Proof.
  unfold losses_of. now rewrite length_map, length_where, length_diff.
Qed.

(** The engine raises exactly when the window is negative; otherwise it
    returns one value per price. *)
Lemma calculate_rsi_eq (prices : list float64) (period : Z) :
  0 <= period ->
  calculate_rsi prices period
  = Ok (map (rsi_at prices (Z.to_nat period)) (seq 0 (length prices))).
Proof.
  intros Hp. unfold calculate_rsi, gain_series, loss_series, rolling_mean.
  destruct (Z.ltb_spec period 0) as [Hneg | _]; [lia |].
  cbn [bind]. f_equal.
  fold (gains_of prices). fold (losses_of prices).
  rewrite length_gains_of, length_losses_of.
  rewrite map2_map_seq, map_map. reflexivity.
Qed.

Lemma calculate_rsi_negative (prices : list float64) (period : Z) :
  period < 0 -> calculate_rsi prices period = Raise ValueError.
Proof.
  intros Hp. unfold calculate_rsi, gain_series, rolling_mean.
  destruct (Z.ltb_spec period 0) as [_ | Hge]; [reflexivity | lia].
Qed.

Lemma length_window_at (w i : nat) (s : list float64) :
  length (window_at w i s) = (Nat.min (i + 1) (length s) - (i + 1 - w))%nat.
Proof. unfold window_at. now rewrite length_skipn, length_firstn. Qed.

(** A window that is not yet full has no mean. *)
Lemma window_mean_short (w : nat) (win : list float64) :
  (length win < w)%nat -> window_mean w win = NaN.
Proof.
  intros Hlen. unfold window_mean.
  pose proof (filter_length_le (fun x => negb (is_nan x)) win) as Hf.
  destruct (Nat.leb_spec w (length (filter (fun x => negb (is_nan x)) win)));
    [lia | reflexivity].
Qed.

Lemma rsi_at_warmup (prices : list float64) (w i : nat) :
  (i + 1 < w)%nat -> rsi_at prices w i = NaN.
Proof.
  intros Hi. unfold rsi_at.
  rewrite (window_mean_short w (window_at w i (gains_of prices)))
    by (rewrite length_window_at; lia).
  reflexivity.
Qed.

Lemma Forall_window_at (P : float64 -> Prop) (w i : nat) (s : list float64) :
  Forall P s -> Forall P (window_at w i s).
Proof.
  intros Hs. unfold window_at.
  assert (Hf : Forall P (firstn (i + 1) s)).
  { rewrite <- (firstn_skipn (i + 1) s) in Hs.
    now apply Forall_app in Hs. }
  rewrite <- (firstn_skipn (i + 1 - w) (firstn (i + 1) s)) in Hf.
  now apply Forall_app in Hf.
Qed.

Lemma diff_from_fin (p : Q) (prices : list Q) :
  Forall (fun x => exists q, x = Fin q) (diff_from (Fin p) (map Fin prices)).
Proof.
  revert p. induction prices as [| x tl IH]; intros p; simpl; constructor.
  - now eexists.
  - apply IH.
Qed.

Lemma diff_fin (prices : list Q) :
  Forall (fun x => x = NaN \/ exists q, x = Fin q) (diff (map Fin prices)).
Proof.
  destruct prices as [| p tl]; simpl; constructor.
  - now left.
  - eapply Forall_impl; [| apply diff_from_fin]. intros x Hx. now right.
Qed.

Lemma gains_nonneg (prices : list Q) :
  Forall nonneg_fin (gains_of (map Fin prices)).
Proof.
  unfold gains_of, where_. apply Forall_map.
  eapply Forall_impl; [| apply diff_fin].
  intros x [-> | [q ->]]; simpl.
  - exists 0%Q. split; [reflexivity | apply Qle_refl].
  - unfold fgtb. simpl. destruct (Qltb 0 q) eqn:E.
    + apply Qltb_lt in E. exists q. split; [reflexivity | now apply Qlt_le_weak].
    + exists 0%Q. split; [reflexivity | apply Qle_refl].
Qed.

Lemma losses_nonneg (prices : list Q) :
  Forall nonneg_fin (losses_of (map Fin prices)).
Proof.
  unfold losses_of, where_. rewrite map_map. apply Forall_map.
  eapply Forall_impl; [| apply diff_fin].
  intros x [-> | [q ->]]; simpl.
  - exists (- 0)%Q. split; [reflexivity | discriminate].
  - destruct (Qltb q 0) eqn:E.
    + apply Qltb_lt in E. exists (- q)%Q. split; [reflexivity | lra].
    + exists (- 0)%Q. split; [reflexivity | discriminate].
Qed.

Lemma fold_fadd_nonneg (xs : list float64) (a : Q) :
  Forall nonneg_fin xs -> (0 <= a)%Q -> nonneg_fin (fold_left fadd xs (Fin a)).
Proof.
  intros Hxs. revert a. induction Hxs as [| x tl [q [-> Hq]] Htl IH];
    intros a Ha; simpl.
  - now exists a.
  - apply IH. lra.
Qed.

Lemma filter_defined_nonneg (xs : list float64) :
  Forall nonneg_fin xs -> filter (fun x => negb (is_nan x)) xs = xs.
Proof.
  induction 1 as [| x tl [q [-> Hq]] Htl IH]; simpl; [reflexivity |].
  now rewrite IH.
Qed.

(** The mean of a full window of non-negative finite values is one. *)
Lemma window_mean_full (w : nat) (win : list float64) :
  (0 < w)%nat -> length win = w -> Forall nonneg_fin win ->
  nonneg_fin (window_mean w win).
Proof.
  intros Hw Hlen Hwin. unfold window_mean.
  rewrite (filter_defined_nonneg win Hwin), Hlen.
  rewrite Nat.leb_refl. destruct (Nat.ltb_spec 0 w) as [_ | H0]; [| lia].
  cbn [andb].
  destruct (fold_fadd_nonneg win 0 Hwin (Qle_refl 0)) as [q [Hq Hq0]].
  unfold fsum. rewrite Hq.
  assert (Hwpos : (0 < inject_Z (Z.of_nat w))%Q).
  { change 0%Q with (inject_Z 0). rewrite <- Zlt_Qlt. lia. }
  unfold fdiv.
  destruct (Qeq_bool (inject_Z (Z.of_nat w)) 0) eqn:E.
  - apply Qeq_bool_iff in E. rewrite E in Hwpos.
    exfalso. exact (Qlt_irrefl 0 Hwpos).
  - eexists. split; [reflexivity |].
    apply Qle_shift_div_l; [assumption |]. lra.
Qed.

(** The value of [100 - 100 / (1 + gain / loss)] on two non-negative
    averages: undefined when both are zero, otherwise between 0 and 100,
    and 100 when the loss is zero. *)
Lemma rsi_of_averages (g l : Q) :
  (0 <= g)%Q -> (0 <= l)%Q ->
  let v := rsi_of_rs (fdiv (Fin g) (Fin l)) in
  (v = NaN /\ (g == 0)%Q /\ (l == 0)%Q) \/
  (exists x, v = Fin x /\ (0 <= x)%Q /\ (x <= 100)%Q /\
             ~ ((g == 0)%Q /\ (l == 0)%Q) /\
             ((l == 0)%Q -> (x == 100)%Q)).
Proof.
  intros Hg Hl. cbv zeta. unfold fdiv.
  destruct (Qeq_bool l 0) eqn:El.
  - apply Qeq_bool_iff in El.
    destruct (Qltb 0 g) eqn:Eg.
    + apply Qltb_lt in Eg. right. exists (100 + - 0)%Q.
      split; [reflexivity |].
      repeat split; try discriminate.
      intros [Hg0 _]. rewrite Hg0 in Eg. exact (Qlt_irrefl 0 Eg).
    + assert (Hg0 : (g == 0)%Q).
      { apply Qle_antisym; [| assumption].
        apply Qnot_lt_le. intros Hlt. apply Qltb_lt in Hlt. congruence. }
      assert (Eg' : Qltb g 0 = false).
      { destruct (Qltb g 0) eqn:E'; [| reflexivity].
        apply Qltb_lt in E'. lra. }
      rewrite Eg'. left. repeat split; assumption.
  - apply Qeq_bool_neq in El.
    assert (Hlpos : (0 < l)%Q).
    { apply Qnot_le_lt. intros Hle. apply El. now apply Qle_antisym. }
    assert (Hrs : (0 <= g / l)%Q).
    { apply Qle_shift_div_l; [assumption | lra]. }
    right. unfold rsi_of_rs, fadd, fdiv.
    destruct (Qeq_bool (1 + g / l) 0) eqn:E1.
    { apply Qeq_bool_iff in E1. lra. }
    exists (100 + - (100 / (1 + g / l)))%Q.
    split; [reflexivity |].
    assert (Hlow : (0 <= 100 / (1 + g / l))%Q).
    { apply Qle_shift_div_l; lra. }
    assert (Hhigh : (100 / (1 + g / l) <= 100)%Q).
    { apply Qle_shift_div_r; lra. }
    repeat split; try lra; intros; tauto.
Qed.

Lemma flat_map_nil {A B : Type} (f : A -> list B) (xs : list A) :
  (forall x, In x xs -> f x = []) -> flat_map f xs = [].
Proof.
  induction xs as [| x tl IH]; intros H; simpl; [reflexivity |].
  rewrite (H x (or_introl eq_refl)), IH; [reflexivity |].
  intros y Hy. apply H. now right.
Qed.



(** C7, as the code has it.  The RSI engine has no check of its own: it
    fails exactly when the period is negative, with the [ValueError] of
    the rolling window, and for every other period, zero or beyond the
    length of the series included, it returns a series of the length of
    the price series. *)
Theorem calculate_rsi_failure (prices : list float64) (period : Z) :
  (period < 0 /\ calculate_rsi prices period = Raise ValueError) \/
  (0 <= period /\
   exists rsi,
     calculate_rsi prices period = Ok rsi /\ length rsi = length prices).
Proof.
  destruct (Z.lt_ge_cases period 0) as [Hneg | Hpos].
  - left. split; [assumption | now apply calculate_rsi_negative].
  - right. split; [assumption |]. eexists.
    split; [now apply calculate_rsi_eq |].
    now rewrite length_map, length_seq.
Qed.

(** C7 fails as stated: with two prices and period 5, beyond the length
    of the series, the engine returns a series, it raises nothing. *)
Lemma calculate_rsi_long_period_returns :
  5 >= len [Fin 1; Fin 2] /\
  calculate_rsi [Fin 1; Fin 2] 5 = Ok [NaN; NaN] /\
  ~ (exists e, calculate_rsi [Fin 1; Fin 2] 5 = Raise e).
Proof.
  split; [discriminate |]. split; [reflexivity |].
  intros [e He]. discriminate.
Qed.


(** ** More on the cross detector *)

(** What an event of position [i] says about the two samples read there,
    whatever the two levels are. *)
Lemma cross_at_sound (rsi_series : list float64) (overbought oversold : Q)
  (i : nat) (c : cross) :
  In c (cross_at rsi_series overbought oversold i) ->
  exists prev curr,
    nth_error rsi_series (i - 1) = Some prev /\
    nth_error rsi_series i = Some curr /\
    cross_index c = Z.of_nat i /\ cross_value c = curr /\
    ((cross_type_of c = overbought_cross /\
      float_le prev (Fin overbought) /\ float_lt (Fin overbought) curr) \/
     (cross_type_of c = oversold_cross /\
      float_le (Fin oversold) prev /\ float_lt curr (Fin oversold))).
Proof.
  unfold cross_at.
  destruct (nth_error rsi_series (i - 1)) as [prev |]; [| contradiction].
  destruct (nth_error rsi_series i) as [cur |]; [| contradiction].
  unfold fgtb, fgeb.
  destruct (fleb prev (Fin overbought) && fltb (Fin overbought) cur) eqn:Eup.
  - apply andb_prop in Eup. destruct Eup as [E1 E2].
    apply fleb_le in E1. apply fltb_lt in E2.
    intros [<- | []]. exists prev, cur. repeat split. left. now repeat split.
  - destruct (fleb (Fin oversold) prev && fltb cur (Fin oversold)) eqn:Edown;
      [| contradiction].
    apply andb_prop in Edown. destruct Edown as [E3 E4].
    apply fleb_le in E3. apply fltb_lt in E4.
    intros [<- | []]. exists prev, cur. repeat split. right. now repeat split.
Qed.

Lemma flat_map_length_le {A B : Type} (f : A -> list B) (xs : list A) :
  (forall x, (length (f x) <= 1)%nat) ->
  (length (flat_map f xs) <= length xs)%nat.
Proof.
  intros Hf. induction xs as [| x tl IH]; simpl; [lia |].
  rewrite length_app. specialize (Hf x). lia.
Qed.

(** Every event of the detector, whatever the two levels are, sits at an
    index from 1 to [N-1], carries the sample of the series at that
    index, which is defined, and that sample is above the overbought
    level for an overbought event and below the oversold level for an
    oversold event; there are at most [N-1] events. *)
Theorem detect_rsi_crosses_events (rsi_series : list float64)
  (overbought oversold : Q) :
  exists crosses,
    detect_rsi_crosses rsi_series overbought oversold = Ok crosses /\
    Forall (fun c =>
              1 <= cross_index c < len rsi_series /\
              nth_error rsi_series (Z.to_nat (cross_index c))
              = Some (cross_value c) /\
              defined (cross_value c) /\
              match cross_type_of c with
              | overbought_cross => float_lt (Fin overbought) (cross_value c)
              | oversold_cross => float_lt (cross_value c) (Fin oversold)
              end) crosses /\
    (length crosses <= length rsi_series - 1)%nat.
Proof.
  eexists. split; [apply detect_rsi_crosses_eq |]. split.
  - apply Forall_forall. intros c Hc.
    apply in_flat_map in Hc. destruct Hc as [i [Hi Hc]].
    apply in_seq in Hi. apply cross_at_sound in Hc.
    destruct Hc as (prev & curr & _ & Hcur & Hidx & Hval & Hk).
    rewrite Hidx, Hval, Nat2Z.id. unfold len.
    split; [lia |]. split; [assumption |].
    destruct Hk as [(-> & _ & Hlt) | (-> & _ & Hlt)];
      (split; [apply float_lt_defined in Hlt; tauto | exact Hlt]).
  - etransitivity; [apply flat_map_length_le, cross_at_length |].
    now rewrite length_seq.
Qed.

(** Two events at consecutive indices are never of the same kind: after
    an overbought event the previous sample is above the level, after an
    oversold event it is below. *)
Theorem detect_rsi_crosses_no_adjacent_repeat (rsi_series : list float64)
  (overbought oversold : Q) :
  exists crosses,
    detect_rsi_crosses rsi_series overbought oversold = Ok crosses /\
    forall c c',
      In c crosses -> In c' crosses ->
      cross_index c' = cross_index c + 1 ->
      cross_type_of c <> cross_type_of c'.
Proof.
  eexists. split; [apply detect_rsi_crosses_eq |].
  intros c c' Hc Hc' Hnext Hsame.
  apply in_flat_map in Hc. destruct Hc as [i [_ Hc]].
  apply in_flat_map in Hc'. destruct Hc' as [j [Hj Hc']].
  apply in_seq in Hj.
  apply cross_at_sound in Hc.
  destruct Hc as (p & v & _ & Hv & Hidx & _ & Hk).
  apply cross_at_sound in Hc'.
  destruct Hc' as (p' & v' & Hp' & _ & Hidx' & _ & Hk').
  assert (Hji : (j - 1 = i)%nat) by lia.
  rewrite Hji, Hv in Hp'. injection Hp' as <-.
  destruct Hk as [(Ek & _ & Hlt) | (Ek & _ & Hlt)];
    destruct Hk' as [(Ek' & Hle' & _) | (Ek' & Hle' & _)];
    try congruence;
    destruct v; simpl in Hlt, Hle'; try contradiction; lra.
Qed.

(** ** More on the cycle builder *)

Lemma create_cycles_cycles_of (crosses : list cross) (data_length : Z) :
  create_cycles crosses data_length = Ok (cycles_of crosses data_length).
Proof. apply create_cycles_eq. Qed.

Lemma cycles_of_cons (c : cross) (tl : list cross) (data_length : Z) :
  cycles_of (c :: tl) data_length
  = mkCycle (cross_index c)
      (match tl with
       | [] => data_length - 1
       | cn :: _ => cross_index cn - 1
       end)
      (cross_type_of c) (cross_value c)
    :: cycles_of tl data_length.
Proof.
  unfold cycles_of. cbn [length seq flat_map].
  rewrite <- seq_shift, flat_map_map.
  rewrite (flat_map_ext _ (cycle_at tl data_length))
    by (intros j; apply cycle_at_cons).
  unfold cycle_at at 1. cbn [nth_error app]. now destruct tl.
Qed.

Lemma cycles_of_round_trip (crosses : list cross) (data_length : Z) :
  map cross_of_cycle (cycles_of crosses data_length) = crosses.
Proof.
  induction crosses as [| [[i k] v] tl IH]; [reflexivity |].
  rewrite cycles_of_cons. cbn [map]. now rewrite IH.
Qed.

(** The cross sequence can be read back from the cycles: the builder
    copies index, kind and value of each cross, in order, whatever the
    indices and the series length are. *)
Theorem create_cycles_round_trip (crosses : list cross) (data_length : Z) :
  exists cycles,
    create_cycles crosses data_length = Ok cycles /\
    map cross_of_cycle cycles = crosses.
Proof.
  exists (cycles_of crosses data_length).
  split; [apply create_cycles_cycles_of | apply cycles_of_round_trip].
Qed.

Lemma total_cycle_length_from (cycles : list cycle) (a : Z) :
  fold_left (fun total c => total + (end_ c - start c + 1)) cycles a
  = a + total_cycle_length cycles.
Proof.
  unfold total_cycle_length. revert a.
  induction cycles as [| c tl IH]; intros a; simpl; [lia |].
  rewrite (IH (a + _)), (IH (end_ c - start c + 1)). lia.
Qed.

Lemma total_cycle_length_cons (c : cycle) (tl : list cycle) :
  total_cycle_length (c :: tl)
  = (end_ c - start c + 1) + total_cycle_length tl.
Proof.
  unfold total_cycle_length at 1. cbn [fold_left].
  now rewrite total_cycle_length_from.
Qed.

Lemma total_cycle_length_cycles_of (c : cross) (tl : list cross)
  (data_length : Z) :
  total_cycle_length (cycles_of (c :: tl) data_length)
  = data_length - cross_index c.
Proof.
  revert c. induction tl as [| cn tl IH]; intros c.
  - rewrite cycles_of_cons, total_cycle_length_cons.
    change (total_cycle_length (cycles_of [] data_length)) with 0.
    cbn [end_ start]. lia.
  - rewrite cycles_of_cons, total_cycle_length_cons, IH.
    cbn [end_ start]. lia.
Qed.

(** The lengths of the cycles add up to the distance from the first
    cross to the end of the series: the sum telescopes, whatever the
    order of the indices. *)
Theorem total_cycle_length_telescopes (c : cross) (tl : list cross)
  (data_length : Z) :
  exists cycles,
    create_cycles (c :: tl) data_length = Ok cycles /\
    total_cycle_length cycles = data_length - cross_index c.
Proof.
  exists (cycles_of (c :: tl) data_length).
  split; [apply create_cycles_cycles_of | apply total_cycle_length_cycles_of].
Qed.

(** With strictly increasing cross indices that lie in the series, every
    cycle lies in the series, bounds in order. *)
Lemma cycles_of_within (crosses : list cross) (data_length : Z) :
  StronglySorted Z.lt (map cross_index crosses) ->
  Forall (fun c => 0 <= cross_index c < data_length) crosses ->
  Forall (cycle_within data_length) (cycles_of crosses data_length).
Proof.
  induction crosses as [| c tl IH]; intros Hs Hb; [constructor |].
  rewrite cycles_of_cons.
  cbn [map] in Hs. apply StronglySorted_inv in Hs. destruct Hs as [Hs Hlt].
  apply Forall_cons_iff in Hb. destruct Hb as [Hc Hb].
  constructor; [| now apply IH].
  unfold cycle_within. simpl.
  destruct tl as [| cn tl'].
  - lia.
  - cbn [map] in Hlt. apply Forall_cons_iff in Hlt.
    apply Forall_cons_iff in Hb. lia.
Qed.

(** ** The traces of the plot *)

Lemma slice_in_range {A : Type} (xs : list A) (a b : Z) :
  0 <= a -> a <= b -> b <= len xs ->
  slice xs a b = firstn (Z.to_nat (b - a)) (skipn (Z.to_nat a) xs).
Proof.
  intros Ha Hab Hb. unfold slice, slice_bound.
  destruct (Z.ltb_spec a 0); [lia |].
  destruct (Z.ltb_spec b 0); [lia |].
  now rewrite !Z.min_l by lia.
Qed.

Lemma cycle_data_within (data : list row) (c : cycle) :
  cycle_within (len data) c ->
  cycle_data data c
  = firstn (Z.to_nat (end_ c + 1 - start c)) (skipn (Z.to_nat (start c)) data).
Proof.
  intros (H0 & Hse & He). unfold cycle_data.
  rewrite Z.min_l by lia. apply slice_in_range; lia.
Qed.

Lemma firstn_skipn_chain {A : Type} (xs : list A) (a k : nat) :
  firstn k (skipn a xs) ++ skipn (a + k) xs = skipn a xs.
Proof.
  rewrite (Nat.add_comm a k), <- skipn_skipn. apply firstn_skipn.
Qed.

(** The traces of consecutive cycles, put end to end, are the table from
    the first cross on. *)
Lemma cycle_data_cover (data : list row) (c : cross) (tl : list cross) :
  StronglySorted Z.lt (map cross_index (c :: tl)) ->
  Forall (fun x => 0 <= cross_index x < len data) (c :: tl) ->
  concat (map (cycle_data data) (cycles_of (c :: tl) (len data)))
  = skipn (Z.to_nat (cross_index c)) data.
Proof.
  revert c. induction tl as [| cn tl IH]; intros c Hs Hb.
  - rewrite cycles_of_cons.
    change (cycles_of [] (len data)) with (@nil cycle).
    cbn [map concat]. rewrite app_nil_r.
    apply Forall_cons_iff in Hb. destruct Hb as [Hc _].
    rewrite cycle_data_within by (unfold cycle_within; simpl; lia).
    cbn [start end_]. apply firstn_all2.
    rewrite length_skipn. unfold len in *. lia.
  - pose proof (cycles_of_within _ _ Hs Hb) as Hw.
    rewrite cycles_of_cons in Hw |- *.
    apply Forall_cons_iff in Hw. destruct Hw as [Hw _].
    cbn [map concat]. rewrite (cycle_data_within _ _ Hw).
    cbn [map] in Hs. apply StronglySorted_inv in Hs. destruct Hs as [Hs Hlt].
    apply Forall_cons_iff in Hb. destruct Hb as [Hc Hb].
    rewrite (IH cn Hs Hb). cbn [start end_].
    cbn [map] in Hlt. apply Forall_cons_iff in Hlt. destruct Hlt as [Hlt _].
    pose proof Hb as Hb'. apply Forall_cons_iff in Hb'. destruct Hb' as [Hn _].
    replace (Z.to_nat (cross_index cn))
      with (Z.to_nat (cross_index c)
            + Z.to_nat (cross_index cn - 1 + 1 - cross_index c))%nat by lia.
    apply firstn_skipn_chain.
Qed.

(** ** The analysis of [main], end to end *)

(** The crosses of a series are sorted by index and lie in the series. *)
Lemma detected_sorted_within (rsi_series : list float64)
  (overbought oversold : Q) :
  let crosses := flat_map (cross_at rsi_series overbought oversold)
                   (seq 1 (length rsi_series - 1)) in
  StronglySorted Z.lt (map cross_index crosses) /\
  Forall (fun c => 1 <= cross_index c < len rsi_series) crosses.
Proof.
  cbv zeta. split.
  - apply sorted_map_key, flat_map_seq_sorted.
    + apply cross_at_index.
    + apply cross_at_length.
  - apply Forall_forall. intros c Hc.
    apply in_flat_map in Hc. destruct Hc as [i [Hi Hc]].
    apply in_seq in Hi. rewrite (cross_at_index _ _ _ _ _ Hc).
    unfold len. lia.
Qed.

Lemma cycle_within_in_range (data : list row) (c : cycle) :
  cycle_within (len data) c -> in_range data c.
Proof. unfold cycle_within, in_range. lia. Qed.

(** What a report of [main] was computed from. *)
Lemma report_inversion (data : list row) (period : Z)
  (overbought oversold : Q) (crosses : list cross) (cycles : list cycle)
  (g r : Z) :
  main_analysis data period overbought oversold = Report crosses cycles g r ->
  data <> [] /\ 0 <= period /\
  crosses <> [] /\
  StronglySorted Z.lt (map cross_index crosses) /\
  Forall (fun c => 1 <= cross_index c < len data) crosses /\
  cycles = cycles_of crosses (len data) /\
  green_cycles data cycles = Ok g /\
  r = len cycles - g.
Proof.
  unfold main_analysis, analyse.
  destruct data as [| r0 tl]; [discriminate |].
  set (data := r0 :: tl).
  destruct (Z.lt_ge_cases period 0) as [Hneg | Hpos].
  { rewrite calculate_rsi_negative by assumption. discriminate. }
  rewrite calculate_rsi_eq by assumption. cbn [bind].
  rewrite detect_rsi_crosses_eq. cbn [bind].
  set (rsi := map (rsi_at (map Close data) (Z.to_nat period))
                (seq 0 (length (map Close data)))).
  assert (Hlen : len rsi = len data).
  { unfold len, rsi. now rewrite length_map, length_seq, length_map. }
  destruct (detected_sorted_within rsi overbought oversold) as [Hs Hb].
  rewrite Hlen in Hb.
  destruct (flat_map (cross_at rsi overbought oversold)
              (seq 1 (length rsi - 1))) as [| c0 ctl] eqn:Ecr;
    [discriminate |].
  rewrite create_cycles_cycles_of. cbn [bind].
  destruct (green_cycles data (cycles_of (c0 :: ctl) (len data)))
    as [g0 | e] eqn:Eg; cbn [bind]; [| discriminate].
  intros H. injection H as <- <- <- <-.
  repeat split; try assumption; discriminate.
Qed.

(** On a table and a period that is not negative, the analysis raises
    nothing. *)
Lemma analyse_returns (data : list row) (period : Z)
  (overbought oversold : Q) :
  0 <= period ->
  exists r, analyse data period overbought oversold = Ok r /\
            forall e, r <> Failed e.
Proof.
  intros Hpos. unfold analyse.
  destruct data as [| r0 tl]; [exists NoData; split; [reflexivity | discriminate] |].
  set (data := r0 :: tl).
  rewrite calculate_rsi_eq by assumption. cbn [bind].
  rewrite detect_rsi_crosses_eq. cbn [bind].
  set (rsi := map (rsi_at (map Close data) (Z.to_nat period))
                (seq 0 (length (map Close data)))).
  assert (Hlen : len rsi = len data).
  { unfold len, rsi. now rewrite length_map, length_seq, length_map. }
  destruct (detected_sorted_within rsi overbought oversold) as [Hs Hb].
  rewrite Hlen in Hb.
  destruct (flat_map (cross_at rsi overbought oversold)
              (seq 1 (length rsi - 1))) as [| c0 ctl] eqn:Ecr.
  { exists NoCrosses. split; [reflexivity | discriminate]. }
  rewrite create_cycles_cycles_of. cbn [bind].
  assert (Hw : Forall (in_range data) (cycles_of (c0 :: ctl) (len data))).
  { eapply Forall_impl; [apply cycle_within_in_range |].
    apply cycles_of_within; [assumption |].
    eapply Forall_impl; [| exact Hb]. simpl. intros c Hc. lia. }
  unfold green_cycles. rewrite (green_cycles_from data _ Hw 0). cbn [bind].
  eexists. split; [reflexivity | discriminate].
Qed.

(** The analysis of [main] fails in one case only, a negative RSI period
    on a table that is not empty, and then with the [ValueError] of the
    rolling window; an empty table is reported as such before anything
    is computed, and in every other case the outcome is either "no
    crosses" or a report: no index is ever out of range. *)
Theorem main_analysis_outcomes (data : list row) (period : Z)
  (overbought oversold : Q) :
  (data = [] /\ main_analysis data period overbought oversold = NoData) \/
  (data <> [] /\ period < 0 /\
   main_analysis data period overbought oversold = Failed ValueError) \/
  (data <> [] /\ 0 <= period /\
   (main_analysis data period overbought oversold = NoCrosses \/
    exists crosses cycles g r,
      main_analysis data period overbought oversold
      = Report crosses cycles g r)).
Proof.
  destruct data as [| r0 tl]; [left; split; reflexivity |].
  right. destruct (Z.lt_ge_cases period 0) as [Hneg | Hpos].
  - left. split; [discriminate |]. split; [assumption |].
    unfold main_analysis, analyse.
    now rewrite calculate_rsi_negative.
  - right. split; [discriminate |]. split; [assumption |].
    destruct (analyse_returns (r0 :: tl) period overbought oversold Hpos)
      as [r [Hr Hnf]].
    unfold main_analysis. rewrite Hr.
    assert (Hnd : r <> NoData).
    { intros ->. unfold analyse in Hr.
      rewrite calculate_rsi_eq in Hr by assumption. cbn [bind] in Hr.
      rewrite detect_rsi_crosses_eq in Hr. cbn [bind] in Hr.
      destruct (flat_map _ _) in Hr; [discriminate |].
      rewrite create_cycles_cycles_of in Hr. cbn [bind] in Hr.
      destruct (green_cycles _ _) in Hr; discriminate. }
    destruct r as [| | crosses cycles g r | e].
    + congruence.
    + now left.
    + right. now exists crosses, cycles, g, r.
    + now elim (Hnf e).
Qed.

Lemma count_occ_le_length (colors : list color) (c : color) :
  (count_occ color_eq_dec colors c <= length colors)%nat.
Proof.
  induction colors as [| x tl IH]; simpl; [lia |].
  destruct (color_eq_dec x c); lia.
Qed.

(** The cycles of a report: one per cross, each inside the table with
    its bounds in order and starting at index 1 or later, coloured
    without any index error, and the two counts are not negative and
    sum to the number of cycles. *)
Theorem main_report_cycles (data : list row) (period : Z)
  (overbought oversold : Q) (crosses : list cross) (cycles : list cycle)
  (g r : Z) :
  main_analysis data period overbought oversold = Report crosses cycles g r ->
  crosses <> [] /\
  map cross_of_cycle cycles = crosses /\
  Forall (fun c => 1 <= start c /\ start c <= end_ c /\ end_ c < len data)
    cycles /\
  (exists colors,
      cycle_colors data cycles = Ok colors /\
      length colors = length cycles /\
      g = Z.of_nat (count_occ color_eq_dec colors green)) /\
  0 <= g /\ 0 <= r /\ g + r = len cycles.
Proof.
  intros H. apply report_inversion in H.
  destruct H as (_ & _ & Hne & Hs & Hb & -> & Hg & ->).
  assert (Hb0 : Forall (fun c => 0 <= cross_index c < len data) crosses).
  { eapply Forall_impl; [| exact Hb]. simpl. intros c Hc. lia. }
  pose proof (cycles_of_within crosses (len data) Hs Hb0) as Hw.
  assert (Hback : map cross_of_cycle (cycles_of crosses (len data)) = crosses)
    by apply cycles_of_round_trip.
  assert (Hin : Forall (in_range data) (cycles_of crosses (len data))).
  { eapply Forall_impl; [apply cycle_within_in_range | exact Hw]. }
  unfold green_cycles in Hg. rewrite (green_cycles_from data _ Hin 0) in Hg.
  injection Hg as <-.
  pose proof (count_occ_le_length
                (map (sign_of data) (cycles_of crosses (len data))) green) as Hle.
  rewrite length_map in Hle.
  split; [assumption |]. split; [assumption |]. split.
  - apply Forall_forall. intros c Hc.
    rewrite Forall_forall in Hw. destruct (Hw c Hc) as (_ & Hse & He).
    split; [| split; assumption].
    assert (Hcr : In (cross_of_cycle c) crosses).
    { rewrite <- Hback. now apply in_map. }
    rewrite Forall_forall in Hb. apply Hb in Hcr.
    unfold cross_of_cycle, cross_index in Hcr. simpl in Hcr. lia.
  - split.
    + exists (map (sign_of data) (cycles_of crosses (len data))).
      split; [now apply cycle_colors_eq |].
      split; [apply length_map | reflexivity].
    + unfold len in *. lia.
Qed.

Lemma main_report_cycles_witness :
  exists crosses cycles g r,
    main_analysis sample_rows 1 70 30 = Report crosses cycles g r /\
    crosses <> [] /\
    map cross_of_cycle cycles = crosses /\
    Forall (fun c => 1 <= start c /\ start c <= end_ c /\
                     end_ c < len sample_rows) cycles /\
    (exists colors,
        cycle_colors sample_rows cycles = Ok colors /\
        length colors = length cycles /\
        g = Z.of_nat (count_occ color_eq_dec colors green)) /\
    0 <= g /\ 0 <= r /\ g + r = len cycles.
Proof.
  eexists. eexists. eexists. eexists.
  split; [vm_compute; reflexivity |].
  eapply (main_report_cycles sample_rows 1 70 30).
  vm_compute. reflexivity.
Defined.

(** The candlestick traces of a report, put end to end in the order of
    the cycles, are exactly the rows of the table from the first cross
    to the last row: every such bar is drawn once, none before the first
    cross is drawn, and clipping the end of a cycle to the table never
    changes it. *)
Theorem plot_covers_bars (data : list row) (period : Z)
  (overbought oversold : Q) (crosses : list cross) (cycles : list cycle)
  (g r : Z) :
  main_analysis data period overbought oversold = Report crosses cycles g r ->
  exists first rest,
    crosses = first :: rest /\
    concat (map (cycle_data data) cycles)
    = skipn (Z.to_nat (cross_index first)) data /\
    Forall (fun c => Z.min (end_ c) (len data - 1) = end_ c) cycles.
Proof.
  intros H. apply report_inversion in H.
  destruct H as (_ & _ & Hne & Hs & Hb & -> & _ & _).
  assert (Hb0 : Forall (fun c => 0 <= cross_index c < len data) crosses).
  { eapply Forall_impl; [| exact Hb]. simpl. intros c Hc. lia. }
  destruct crosses as [| first rest]; [congruence |].
  exists first, rest. split; [reflexivity |]. split.
  - now apply cycle_data_cover.
  - eapply Forall_impl; [| apply (cycles_of_within _ _ Hs Hb0)].
    intros c (_ & _ & He). lia.
Qed.

Lemma plot_covers_bars_witness :
  exists crosses cycles g r,
    main_analysis sample_rows 1 70 30 = Report crosses cycles g r /\
    exists first rest,
      crosses = first :: rest /\
      concat (map (cycle_data sample_rows) cycles)
      = skipn (Z.to_nat (cross_index first)) sample_rows /\
      Forall (fun c => Z.min (end_ c) (len sample_rows - 1) = end_ c) cycles.
Proof.
  eexists. eexists. eexists. eexists.
  split; [vm_compute; reflexivity |].
  eapply (plot_covers_bars sample_rows 1 70 30).
  vm_compute. reflexivity.
Defined.

Lemma filter_all {A : Type} (p : A -> bool) (xs : list A) :
  Forall (fun x => p x = true) xs -> filter p xs = xs.
Proof.
  induction 1 as [| x tl Hx Htl IH]; simpl; [reflexivity |].
  now rewrite Hx, IH.
Qed.

Lemma flat_map_singleton {A B : Type} (f : A -> B) (xs : list A) :
  flat_map (fun x => [f x]) xs = map f xs.
Proof. induction xs as [| x tl IH]; simpl; [reflexivity | now rewrite IH]. Qed.

(** The markers of a report: the test [idx < len(data)] drops no cross
    and no price lookup fails, so there is one marker per cross, with
    the average price of the bar of the cross and the RSI value of the
    cross, in the order of the crosses. *)
Theorem cross_markers_complete (data : list row) (period : Z)
  (overbought oversold : Q) (crosses : list cross) (cycles : list cycle)
  (g r : Z) :
  main_analysis data period overbought oversold = Report crosses cycles g r ->
  cross_prices data crosses
  = Ok (map (fun c => nth (Z.to_nat (cross_index c))
                        (map calculate_ohlc_average data) NaN) crosses) /\
  cross_rsi_points data crosses = map cross_value crosses.
Proof.
  intros H. apply report_inversion in H.
  destruct H as (_ & _ & _ & _ & Hb & _).
  split.
  - unfold cross_prices.
    rewrite (for_each_appends _ _
               (fun c => [nth (Z.to_nat (cross_index c))
                            (map calculate_ohlc_average data) NaN])).
    + now rewrite flat_map_singleton.
    + intros s c Hc. rewrite Forall_forall in Hb. specialize (Hb c Hc).
      destruct (Z.ltb_spec (cross_index c) (len data)); [| lia].
      unfold iloc.
      rewrite (getitem_in_range _ (cross_index c) NaN)
        by (unfold len in *; rewrite length_map; lia).
      reflexivity.
  - unfold cross_rsi_points. rewrite filter_all; [reflexivity |].
    eapply Forall_impl; [| exact Hb]. simpl. intros c Hc.
    apply Z.ltb_lt. lia.
Qed.

Lemma cross_markers_complete_witness :
  exists crosses cycles g r,
    main_analysis sample_rows 1 70 30 = Report crosses cycles g r /\
    cross_prices sample_rows crosses
    = Ok (map (fun c => nth (Z.to_nat (cross_index c))
                          (map calculate_ohlc_average sample_rows) NaN)
            crosses) /\
    cross_rsi_points sample_rows crosses = map cross_value crosses.
Proof.
  eexists. eexists. eexists. eexists.
  split; [vm_compute; reflexivity |].
  eapply (cross_markers_complete sample_rows 1 70 30).
  vm_compute. reflexivity.
Defined.

(** The facts about a report that the statistics rest on. *)
Lemma main_report_cycles_facts (data : list row) (period : Z)
  (overbought oversold : Q) (crosses : list cross) (cycles : list cycle)
  (g r : Z) :
  main_analysis data period overbought oversold = Report crosses cycles g r ->
  Forall (cycle_within (len data)) cycles /\
  0 <= g /\ g <= len cycles /\ 1 <= len cycles /\
  total_cycle_length cycles <= len data - 1.
Proof.
  intros H. apply report_inversion in H.
  destruct H as (_ & _ & Hne & Hs & Hb & -> & Hg & _).
  assert (Hb0 : Forall (fun c => 0 <= cross_index c < len data) crosses).
  { eapply Forall_impl; [| exact Hb]. simpl. intros c Hc. lia. }
  pose proof (cycles_of_within crosses (len data) Hs Hb0) as Hw.
  assert (Hin : Forall (in_range data) (cycles_of crosses (len data))).
  { eapply Forall_impl; [apply cycle_within_in_range | exact Hw]. }
  unfold green_cycles in Hg. rewrite (green_cycles_from data _ Hin 0) in Hg.
  injection Hg as <-.
  pose proof (count_occ_le_length
                (map (sign_of data) (cycles_of crosses (len data))) green) as Hle.
  rewrite length_map in Hle.
  split; [assumption |].
  destruct crosses as [| c0 ctl]; [congruence |].
  pose proof (total_cycle_length_cycles_of c0 ctl (len data)) as Htot.
  apply Forall_cons_iff in Hb. destruct Hb as [Hc0 _].
  assert (Hlen : length (cycles_of (c0 :: ctl) (len data)) = S (length ctl))
    by apply length_cycles.
  unfold len in *. lia.
Qed.

Lemma total_cycle_length_ge (n : Z) (cycles : list cycle) :
  Forall (cycle_within n) cycles ->
  len cycles <= total_cycle_length cycles.
Proof.
  unfold len. induction 1 as [| c tl (H0 & Hse & He) Htl IH].
  - unfold total_cycle_length. simpl. lia.
  - rewrite total_cycle_length_cons. cbn [length]. lia.
Qed.

(** The statistics of a report are always shown: the win rate lies
    between 0 and 100, and the average cycle length is at least one bar
    and at most the number of bars after the first. *)
Theorem main_report_statistics (data : list row) (period : Z)
  (overbought oversold : Q) (crosses : list cross) (cycles : list cycle)
  (g r : Z) :
  main_analysis data period overbought oversold = Report crosses cycles g r ->
  exists win_rate avg_cycle_length,
    cycle_statistics g cycles = Some (win_rate, avg_cycle_length) /\
    (0 <= win_rate)%Q /\ (win_rate <= 100)%Q /\
    (1 <= avg_cycle_length)%Q /\
    (avg_cycle_length <= inject_Z (len data - 1))%Q.
Proof.
  intros H.
  destruct (main_report_cycles_facts data period overbought oversold
              crosses cycles g r H)
    as (Hw & Hg0 & Hgn & Hn & Htot).
  destruct cycles as [| c0 ctl]; [unfold len in Hn; simpl in Hn; lia |].
  set (cycles := c0 :: ctl) in *.
  eexists. eexists. split; [reflexivity |].
  assert (Hnq : (0 < inject_Z (len cycles))%Q).
  { change 0%Q with (inject_Z 0). rewrite <- Zlt_Qlt. lia. }
  assert (Hx0 : (0 <= inject_Z g / inject_Z (len cycles))%Q).
  { apply Qle_shift_div_l; [assumption |]. rewrite Qmult_0_l.
    change 0%Q with (inject_Z 0). now rewrite <- Zle_Qle. }
  assert (Hx1 : (inject_Z g / inject_Z (len cycles) <= 1)%Q).
  { apply Qle_shift_div_r; [assumption |]. rewrite Qmult_1_l.
    now rewrite <- Zle_Qle. }
  pose proof (total_cycle_length_ge _ _ Hw) as Hge.
  split; [lra |]. split; [lra |]. split.
  - apply Qle_shift_div_l; [assumption |]. rewrite Qmult_1_l.
    now rewrite <- Zle_Qle.
  - apply Qle_shift_div_r; [assumption |].
    rewrite <- inject_Z_mult, <- Zle_Qle. nia.
Qed.

Lemma main_report_statistics_witness :
  exists crosses cycles g r,
    main_analysis sample_rows 1 70 30 = Report crosses cycles g r /\
    exists win_rate avg_cycle_length,
      cycle_statistics g cycles = Some (win_rate, avg_cycle_length) /\
      (0 <= win_rate)%Q /\ (win_rate <= 100)%Q /\
      (1 <= avg_cycle_length)%Q /\
      (avg_cycle_length <= inject_Z (len sample_rows - 1))%Q.
Proof.
  eexists. eexists. eexists. eexists.
  split; [vm_compute; reflexivity |].
  eapply (main_report_statistics sample_rows 1 70 30).
  vm_compute. reflexivity.
Defined.

(** ** The RSI of rising, falling and flat prices *)

Lemma chain_diff_from (R : Q -> Q -> Prop) (P : float64 -> Prop) :
  (forall a b, R a b -> P (Fin (b + - a))) ->
  forall tl p, chain R p tl -> Forall P (diff_from (Fin p) (map Fin tl)).
Proof.
  intros HP. induction tl as [| x tl IH]; intros p Hc; simpl.
  - constructor.
  - destruct Hc as [Hpx Hc]. constructor; [now apply HP | now apply IH].
Qed.

Lemma gains_of_cons (p : Q) (tl : list Q) :
  gains_of (map Fin (p :: tl))
  = Fin 0 :: map (fun x => if fgtb x (Fin 0) then x else Fin 0)
               (diff_from (Fin p) (map Fin tl)).
Proof. reflexivity. Qed.

Lemma losses_of_cons (p : Q) (tl : list Q) :
  losses_of (map Fin (p :: tl))
  = Fin (- 0) :: map (fun x => fneg (if fltb x (Fin 0) then x else Fin 0))
                   (diff_from (Fin p) (map Fin tl)).
Proof. unfold losses_of, where_. now rewrite map_map. Qed.

Lemma Qltb_false (a b : Q) : (b <= a)%Q -> Qltb a b = false.
Proof.
  intros H. destruct (Qltb a b) eqn:E; [| reflexivity].
  apply Qltb_lt in E. exfalso. exact (Qlt_not_le _ _ E H).
Qed.




(** On flat prices every gain and every loss is zero. *)
Lemma flat_gains_losses (p : Q) (tl : list Q) :
  chain Qeq p tl ->
  Forall zero_fin (gains_of (map Fin (p :: tl))) /\
  Forall zero_fin (losses_of (map Fin (p :: tl))).
Proof.
  intros Hc. split.
  - rewrite gains_of_cons. constructor.
    + exists 0%Q. split; reflexivity.
    + apply Forall_map. apply (chain_diff_from Qeq); [| assumption].
      intros a b Hab. unfold fgtb. simpl. rewrite Qltb_false by lra.
      exists 0%Q. split; reflexivity.
  - rewrite losses_of_cons. constructor.
    + exists (- 0)%Q. split; reflexivity.
    + apply Forall_map. apply (chain_diff_from Qeq); [| assumption].
      intros a b Hab. simpl. rewrite Qltb_false by lra.
      exists (- 0)%Q. split; reflexivity.
Qed.

Lemma zero_fin_nonneg (x : float64) : zero_fin x -> nonneg_fin x.
Proof. intros [q [-> Hq]]. exists q. split; [reflexivity | lra]. Qed.

Lemma pos_fin_nonneg (x : float64) : pos_fin x -> nonneg_fin x.
Proof. intros [q [-> Hq]]. exists q. split; [reflexivity | lra]. Qed.

Lemma fold_fadd_zero (xs : list float64) (a : Q) :
  Forall zero_fin xs -> (a == 0)%Q -> zero_fin (fold_left fadd xs (Fin a)).
Proof.
  intros Hxs. revert a. induction Hxs as [| x tl [q [-> Hq]] Htl IH];
    intros a Ha; simpl.
  - now exists a.
  - apply IH. lra.
Qed.



(** The mean of a full window of non-negative finite values is their sum
    over the size of the window. *)
Lemma window_mean_full_eq (w : nat) (win : list float64) :
  (0 < w)%nat -> length win = w -> Forall nonneg_fin win ->
  exists q,
    fsum win = Fin q /\
    window_mean w win = Fin (q / inject_Z (Z.of_nat w)) /\
    (0 < inject_Z (Z.of_nat w))%Q.
Proof.
  intros Hw Hlen Hwin. unfold window_mean.
  rewrite (filter_defined_nonneg win Hwin), Hlen.
  rewrite Nat.leb_refl. destruct (Nat.ltb_spec 0 w) as [_ | H0]; [| lia].
  cbn [andb].
  destruct (fold_fadd_nonneg win 0 Hwin (Qle_refl 0)) as [q [Hq Hq0]].
  unfold fsum. rewrite Hq.
  assert (Hwpos : (0 < inject_Z (Z.of_nat w))%Q).
  { change 0%Q with (inject_Z 0). rewrite <- Zlt_Qlt. lia. }
  exists q. split; [reflexivity |]. split; [| assumption].
  unfold fdiv.
  destruct (Qeq_bool (inject_Z (Z.of_nat w)) 0) eqn:E; [| reflexivity].
  apply Qeq_bool_iff in E. rewrite E in Hwpos.
  exfalso. exact (Qlt_irrefl 0 Hwpos).
Qed.

Lemma window_mean_zero (w : nat) (win : list float64) :
  (0 < w)%nat -> length win = w -> Forall zero_fin win ->
  zero_fin (window_mean w win).
Proof.
  intros Hw Hlen Hwin.
  assert (Hnn : Forall nonneg_fin win)
    by (eapply Forall_impl; [apply zero_fin_nonneg | exact Hwin]).
  destruct (window_mean_full_eq w win Hw Hlen Hnn) as (q & Hq & -> & Hwpos).
  destruct (fold_fadd_zero win 0 Hwin (Qeq_refl 0)) as [q' [Hq' Hz]].
  unfold fsum in Hq. rewrite Hq in Hq'. injection Hq' as <-.
  eexists. split; [reflexivity |].
  rewrite Hz. unfold Qdiv. apply Qmult_0_l.
Qed.




Lemma window_at_full_length (w i : nat) (s : list float64) :
  (w <= i + 1)%nat -> (i < length s)%nat -> length (window_at w i s) = w.
Proof. intros Hw Hi. rewrite length_window_at. lia. Qed.


(** A series whose defined samples all have the same value has no
    cross, whatever the two levels are. *)
Lemma detect_nan_or (v : Q) (rsi_series : list float64)
  (overbought oversold : Q) :
  Forall (nan_or v) rsi_series ->
  detect_rsi_crosses rsi_series overbought oversold = Ok [].
Proof.
  intros Hall. rewrite detect_rsi_crosses_eq. f_equal.
  apply flat_map_nil. intros i _.
  destruct (cross_at rsi_series overbought oversold i) as [| c tl] eqn:E;
    [reflexivity |].
  exfalso.
  assert (Hc : In c (cross_at rsi_series overbought oversold i))
    by (rewrite E; now left).
  apply cross_at_sound in Hc.
  destruct Hc as (prev & curr & Hp & Hq & _ & _ & Hk).
  rewrite Forall_forall in Hall.
  pose proof (Hall prev (nth_error_In _ _ Hp)) as Hprev.
  pose proof (Hall curr (nth_error_In _ _ Hq)) as Hcurr.
  destruct Hk as [(_ & Hle & Hlt) | (_ & Hle & Hlt)];
    destruct Hprev as [-> | [a [-> Ha]]]; try contradiction;
    destruct Hcurr as [-> | [b [-> Hb]]]; try contradiction;
    simpl in Hle, Hlt; lra.
Qed.

Lemma main_no_crosses (data : list row) (period : Z)
  (overbought oversold : Q) (rsi : list float64) :
  data <> [] ->
  calculate_rsi (map Close data) period = Ok rsi ->
  detect_rsi_crosses rsi overbought oversold = Ok [] ->
  main_analysis data period overbought oversold = NoCrosses.
Proof.
  intros Hne Hrsi Hdet. unfold main_analysis, analyse.
  destruct data as [| r0 tl]; [congruence |].
  rewrite Hrsi. cbn [bind]. now rewrite Hdet.
Qed.

(** From the first full window on, both averages are finite and not
    negative and the RSI is computed from them. *)
Lemma rsi_at_full (prices : list Q) (w i : nat) :
  (0 < w)%nat -> (w <= i + 1)%nat -> (i < length prices)%nat ->
  exists g l,
    window_mean w (window_at w i (gains_of (map Fin prices))) = Fin g /\
    window_mean w (window_at w i (losses_of (map Fin prices))) = Fin l /\
    (0 <= g)%Q /\ (0 <= l)%Q /\
    rsi_at (map Fin prices) w i = rsi_of_rs (fdiv (Fin g) (Fin l)).
Proof.
  intros Hw Hwi Hi.
  destruct (window_mean_full w (window_at w i (gains_of (map Fin prices))))
    as [g [Hg Hg0]]; try assumption.
  { apply window_at_full_length; [assumption |].
    now rewrite length_gains_of, length_map. }
  { apply Forall_window_at, gains_nonneg. }
  destruct (window_mean_full w (window_at w i (losses_of (map Fin prices))))
    as [l [Hl Hl0]]; try assumption.
  { apply window_at_full_length; [assumption |].
    now rewrite length_losses_of, length_map. }
  { apply Forall_window_at, losses_nonneg. }
  exists g, l. unfold rsi_at. rewrite Hg, Hl. now repeat split.
Qed.

Lemma zero_fin_Fin (q : Q) : zero_fin (Fin q) -> (q == 0)%Q.
Proof. intros [q' [H Hz]]. now injection H as ->. Qed.






Lemma window_mean_nil (w : nat) : window_mean w [] = NaN.
Proof. unfold window_mean. simpl. now rewrite andb_false_r. Qed.

Lemma rsi_at_no_window (prices : list float64) (i : nat) :
  rsi_at prices 0 i = NaN.
Proof.
  unfold rsi_at.
  assert (H : window_at 0 i (gains_of prices) = []).
  { apply length_zero_iff_nil. rewrite length_window_at. lia. }
  now rewrite H, window_mean_nil.
Qed.

(** On constant prices the RSI is undefined at every position, for every
    period that is not negative: both averages are zero and their
    quotient is not a number.  So the series has no cross and [main]
    reports none. *)
Theorem rsi_of_flat_prices (prices : list Q) (period : Z)
  (overbought oversold : Q) :
  flat prices -> 0 <= period ->
  exists rsi,
    calculate_rsi (map Fin prices) period = Ok rsi /\
    length rsi = length prices /\
    Forall (fun v => v = NaN) rsi /\
    detect_rsi_crosses rsi overbought oversold = Ok [] /\
    (forall data,
        map Close data = map Fin prices -> data <> [] ->
        main_analysis data period overbought oversold = NoCrosses).
Proof.
  intros Hflat Hp.
  set (w := Z.to_nat period).
  set (rsi := map (rsi_at (map Fin prices) w) (seq 0 (length prices))).
  assert (Hrsi : calculate_rsi (map Fin prices) period = Ok rsi).
  { rewrite calculate_rsi_eq by lia. now rewrite length_map. }
  assert (Hall : Forall (fun v => v = NaN) rsi).
  { apply Forall_forall. intros v Hv. unfold rsi in Hv.
    apply in_map_iff in Hv. destruct Hv as [i [<- Hi]]. apply in_seq in Hi.
    destruct (Nat.eq_dec w 0) as [-> | Hw0]; [apply rsi_at_no_window |].
    destruct (Nat.lt_ge_cases (i + 1) w) as [Hshort | Hfull].
    { now apply rsi_at_warmup. }
    destruct prices as [| p tl]; [simpl in Hi; lia |].
    destruct (flat_gains_losses p tl Hflat) as [Hgz Hlz].
    destruct (rsi_at_full (p :: tl) w i) as (g & l & Hg & Hl & Hg0 & Hl0 & ->);
      [lia | lia | lia |].
    assert (Hgq : (g == 0)%Q).
    { apply zero_fin_Fin. rewrite <- Hg. apply window_mean_zero.
      - lia.
      - apply window_at_full_length; [assumption |].
        rewrite length_gains_of, length_map. lia.
      - now apply Forall_window_at. }
    assert (Hlq : (l == 0)%Q).
    { apply zero_fin_Fin. rewrite <- Hl. apply window_mean_zero.
      - lia.
      - apply window_at_full_length; [assumption |].
        rewrite length_losses_of, length_map. lia.
      - now apply Forall_window_at. }
    destruct (rsi_of_averages g l Hg0 Hl0) as [[Hn _] | [x [_ Hr]]];
      [assumption | tauto]. }
  assert (Hdet : detect_rsi_crosses rsi overbought oversold = Ok []).
  { apply (detect_nan_or 0). eapply Forall_impl; [| exact Hall].
    intros v ->. now left. }
  exists rsi. split; [assumption |].
  split; [unfold rsi; now rewrite length_map, length_seq |].
  split; [assumption |]. split; [assumption |].
  intros data Hd Hne. apply (main_no_crosses data period _ _ rsi Hne).
  - now rewrite Hd.
  - assumption.
Qed.

Lemma rsi_of_flat_prices_witness :
  exists rsi,
    calculate_rsi (map Fin flat_prices_5) 2 = Ok rsi /\
    length rsi = length flat_prices_5 /\
    Forall (fun v => v = NaN) rsi /\
    detect_rsi_crosses rsi 70 30 = Ok [] /\
    (forall data,
        map Close data = map Fin flat_prices_5 -> data <> [] ->
        main_analysis data 2 70 30 = NoCrosses).
Proof.
  apply (rsi_of_flat_prices flat_prices_5 2 70 30).
  - vm_compute. repeat split.
  - discriminate.
Defined.

(** ** More on the classifier *)

Lemma fadd_nan_l (y : float64) : fadd NaN y = NaN.
Proof. reflexivity. Qed.

Lemma fadd_nan_r (x : float64) : fadd x NaN = NaN.
Proof. now destruct x. Qed.

Lemma fdiv_nan_l (y : float64) : fdiv NaN y = NaN.
Proof. reflexivity. Qed.

Lemma fgtb_nan_r (x : float64) : fgtb x NaN = false.
Proof. reflexivity. Qed.

Lemma fgtb_nan_l (y : float64) : fgtb NaN y = false.
Proof. now destruct y. Qed.

(** A missing price makes a cycle red: when one of the four prices of
    the bar of the cross, or the close of the last bar of the cycle, is
    not a number, the comparison is false and the cycle is not green. *)
Theorem missing_price_is_red (data : list row) (c : cycle) (rs re : row) :
  0 <= start c -> 0 <= end_ c ->
  nth_error data (Z.to_nat (start c)) = Some rs ->
  nth_error data (Z.to_nat (end_ c)) = Some re ->
  Open rs = NaN \/ High rs = NaN \/ Low rs = NaN \/ Close rs = NaN \/
  Close re = NaN ->
  cycle_color data c = Ok red.
Proof.
  intros Hs He Hrs Hre Hnan.
  assert (Hin : in_range data c).
  { unfold in_range, len. split.
    - assert (Z.to_nat (start c) < length data)%nat
        by (apply nth_error_Some; congruence). lia.
    - assert (Z.to_nat (end_ c) < length data)%nat
        by (apply nth_error_Some; congruence). lia. }
  rewrite (cycle_color_in_range data c Hin). f_equal. unfold sign_of.
  rewrite (nth_error_nth _ _ NaN
             (eq_trans (nth_error_map _ _ _) (f_equal (option_map _) Hre))).
  rewrite (nth_error_nth _ _ NaN
             (eq_trans (nth_error_map _ _ _) (f_equal (option_map _) Hrs))).
  unfold calculate_ohlc_average.
  destruct Hnan as [H | [H | [H | [H | H]]]]; rewrite H;
    rewrite ?fadd_nan_l, ?fadd_nan_r, ?fdiv_nan_l, ?fgtb_nan_r, ?fgtb_nan_l;
    reflexivity.
Qed.

Lemma missing_price_is_red_witness :
  cycle_color
    [mkRow (Fin 1) NaN (Fin 1) (Fin 1); mkRow (Fin 9) (Fin 9) (Fin 9) (Fin 9)]
    (mkCycle 0 1 overbought_cross (Fin 72))
  = Ok red.
Proof.
  apply (missing_price_is_red _ _
           (mkRow (Fin 1) NaN (Fin 1) (Fin 1))
           (mkRow (Fin 9) (Fin 9) (Fin 9) (Fin 9))).
  - simpl. lia.
  - simpl. lia.
  - reflexivity.
  - reflexivity.
  - right. left. reflexivity.
Defined.

(** An index a sequence accepts: from [-len] up to [len - 1]. *)
Lemma getitem_cases {A : Type} (xs : list A) (i : Z) :
  (- len xs <= i < len xs /\ exists x, getitem xs i = Ok x) \/
  (~ (- len xs <= i < len xs) /\ getitem xs i = Raise IndexError).
Proof.
  unfold getitem, len.
  destruct (Z.ltb_spec i 0) as [Hneg | Hpos].
  - destruct (Z.ltb_spec (Z.of_nat (length xs) + i) 0) as [Hlow | Hok].
    + right. split; [lia | reflexivity].
    + destruct (nth_error xs (Z.to_nat (Z.of_nat (length xs) + i))) eqn:E.
      * left. split; [lia | now eexists].
      * apply nth_error_None in E. lia.
  - destruct (Z.ltb_spec i 0) as [Hneg | _]; [lia |].
    destruct (nth_error xs (Z.to_nat i)) eqn:E.
    + left. split; [| now eexists].
      assert (Z.to_nat i < length xs)%nat by (apply nth_error_Some; congruence).
      lia.
    + apply nth_error_None in E. right. split; [lia | reflexivity].
Qed.

Lemma cycle_color_cases (data : list row) (c : cycle) :
  (accepted data c /\ exists col, cycle_color data c = Ok col) \/
  (~ accepted data c /\ cycle_color data c = Raise IndexError).
Proof.
  unfold cycle_color, iloc, accepted.
  destruct (getitem_cases (map calculate_ohlc_average data) (start c))
    as [[Hs [p Hp]] | [Hs Hp]]; rewrite Hp; cbn [bind];
    unfold len in Hs; rewrite length_map in Hs; fold (len data) in Hs.
  - destruct (getitem_cases (map Close data) (end_ c))
      as [[He [q Hq]] | [He Hq]]; rewrite Hq; cbn [bind];
      unfold len in He; rewrite length_map in He; fold (len data) in He.
    + left. split; [tauto | now eexists].
    + right. split; [tauto | reflexivity].
  - right. split; [tauto | reflexivity].
Qed.

Lemma cycle_colors_from (data : list row) (cycles : list cycle)
  (acc : list color) :
  (Forall (accepted data) cycles /\
   exists colors,
     for_each cycles
       (fun colors c => col <- cycle_color data c ;; Ok (colors ++ [col])) acc
     = Ok (acc ++ colors) /\
     length colors = length cycles) \/
  (Exists (fun c => ~ accepted data c) cycles /\
   for_each cycles
     (fun colors c => col <- cycle_color data c ;; Ok (colors ++ [col])) acc
   = Raise IndexError).
Proof.
  revert acc. induction cycles as [| c tl IH]; intros acc.
  - left. split; [constructor |]. exists []. split; [| reflexivity].
    simpl. now rewrite app_nil_r.
  - cbn [for_each].
    destruct (cycle_color_cases data c) as [[Ha [col Hc]] | [Hna Hc]];
      rewrite Hc; cbn [bind].
    + destruct (IH (acc ++ [col])) as [[Hall [cols [Hr Hl]]] | [Hex Hr]].
      * left. split; [now constructor |]. exists (col :: cols).
        split; [| simpl; now rewrite Hl].
        rewrite Hr. now rewrite <- app_assoc.
      * right. split; [now apply Exists_cons_tl | assumption].
    + right. split; [now apply Exists_cons_hd | reflexivity].
Qed.

(** The colouring loop of the plot fails exactly when some cycle has an
    index the table does not accept, and then with [IndexError];
    otherwise it returns one colour per cycle. *)
Theorem cycle_colors_failure (data : list row) (cycles : list cycle) :
  (Forall (accepted data) cycles /\
   exists colors,
     cycle_colors data cycles = Ok colors /\
     length colors = length cycles) \/
  (Exists (fun c => ~ accepted data c) cycles /\
   cycle_colors data cycles = Raise IndexError).
Proof.
  unfold cycle_colors.
  destruct (cycle_colors_from data cycles [])
    as [[Hall [cols [Hr Hl]]] | [Hex Hr]].
  - left. split; [assumption |]. now exists cols.
  - right. now split.
Qed.

(** ** The analysis does not look ahead *)

Lemma flat_map_ext_in_seq {B : Type} (f g : nat -> list B) (a n : nat) :
  (forall i, (a <= i < a + n)%nat -> f i = g i) ->
  flat_map f (seq a n) = flat_map g (seq a n).
Proof.
  revert a. induction n as [| n IH]; intros a H; simpl; [reflexivity |].
  rewrite (H a) by lia. f_equal. apply IH. intros i Hi. apply H. lia.
Qed.

Lemma cross_at_app (rsi_series later : list float64)
  (overbought oversold : Q) (i : nat) :
  (i < length rsi_series)%nat ->
  cross_at (rsi_series ++ later) overbought oversold i
  = cross_at rsi_series overbought oversold i.
Proof.
  intros Hi. unfold cross_at.
  now rewrite !nth_error_app1 by lia.
Qed.

(** Samples added at the end of a series leave its crosses as they are:
    the crosses of the longer series are those of the shorter one,
    followed by the new ones. *)
Theorem detect_rsi_crosses_prefix (rsi_series later : list float64)
  (overbought oversold : Q) :
  exists crosses new_crosses,
    detect_rsi_crosses rsi_series overbought oversold = Ok crosses /\
    detect_rsi_crosses (rsi_series ++ later) overbought oversold
    = Ok (crosses ++ new_crosses).
Proof.
  rewrite !detect_rsi_crosses_eq.
  destruct rsi_series as [| x tl].
  { exists [], (flat_map (cross_at later overbought oversold)
                  (seq 1 (length later - 1))).
    split; reflexivity. }
  set (s := x :: tl).
  exists (flat_map (cross_at s overbought oversold) (seq 1 (length s - 1))).
  exists (flat_map (cross_at (s ++ later) overbought oversold)
            (seq (length s) (length later))).
  split; [reflexivity |]. f_equal.
  rewrite length_app.
  replace (length s + length later - 1)%nat
    with ((length s - 1) + length later)%nat by (subst s; simpl; lia).
  rewrite seq_app, flat_map_app.
  replace (1 + (length s - 1))%nat with (length s) by (subst s; simpl; lia).
  f_equal. apply flat_map_ext_in_seq.
  intros i Hi. apply cross_at_app. lia.
Qed.

Lemma last_cons_default {A : Type} (x : A) (tl : list A) (d d' : A) :
  last (x :: tl) d = last (x :: tl) d'.
Proof.
  revert x. induction tl as [| y tl IH]; intros x; [reflexivity |].
  change (last (y :: tl) d = last (y :: tl) d'). apply IH.
Qed.

Lemma diff_from_app (p : float64) (a b : list float64) :
  diff_from p (a ++ b) = diff_from p a ++ diff_from (last a p) b.
Proof.
  revert p. induction a as [| x tl IH]; intros p; [reflexivity |].
  cbn [app diff_from]. rewrite IH. f_equal. f_equal.
  destruct tl as [| y tl']; [reflexivity |].
  change (last (x :: y :: tl') p) with (last (y :: tl') p).
  now rewrite (last_cons_default y tl' x p).
Qed.

Lemma diff_app (prices later : list float64) :
  exists t, diff (prices ++ later) = diff prices ++ t.
Proof.
  destruct prices as [| p tl].
  - now exists (diff later).
  - cbn [app diff]. rewrite diff_from_app. now eexists.
Qed.

Lemma gains_of_app (prices later : list float64) :
  exists t, gains_of (prices ++ later) = gains_of prices ++ t.
Proof.
  destruct (diff_app prices later) as [t Ht].
  unfold gains_of, where_. rewrite Ht, map_app. now eexists.
Qed.

Lemma losses_of_app (prices later : list float64) :
  exists t, losses_of (prices ++ later) = losses_of prices ++ t.
Proof.
  destruct (diff_app prices later) as [t Ht].
  unfold losses_of, where_. rewrite Ht, !map_app. now eexists.
Qed.

Lemma window_at_app (w i : nat) (s t : list float64) :
  (i < length s)%nat -> window_at w i (s ++ t) = window_at w i s.
Proof.
  intros Hi. unfold window_at. rewrite firstn_app.
  replace (i + 1 - length s)%nat with 0%nat by lia.
  cbn [firstn]. now rewrite app_nil_r.
Qed.

Lemma rsi_at_app (prices later : list float64) (w i : nat) :
  (i < length prices)%nat ->
  rsi_at (prices ++ later) w i = rsi_at prices w i.
Proof.
  intros Hi. unfold rsi_at.
  destruct (gains_of_app prices later) as [tg ->].
  destruct (losses_of_app prices later) as [tl ->].
  rewrite !window_at_app; [reflexivity | |].
  - now rewrite length_losses_of.
  - now rewrite length_gains_of.
Qed.

(** Prices added at the end of a series leave its RSI as it is: the RSI
    of the longer series is that of the shorter one, followed by the new
    values.  No value depends on a later price. *)
Theorem calculate_rsi_prefix (prices later : list float64) (period : Z) :
  0 <= period ->
  exists rsi new_rsi,
    calculate_rsi prices period = Ok rsi /\
    length rsi = length prices /\
    calculate_rsi (prices ++ later) period = Ok (rsi ++ new_rsi).
Proof.
  intros Hp. rewrite !calculate_rsi_eq by assumption.
  eexists. eexists. split; [reflexivity |].
  split; [now rewrite length_map, length_seq |].
  f_equal. rewrite length_app, seq_app, map_app. f_equal.
  apply map_ext_in. intros i Hi. apply in_seq in Hi.
  apply rsi_at_app. lia.
Qed.

Lemma calculate_rsi_prefix_witness :
  exists rsi new_rsi,
    calculate_rsi (map Fin [1; 2; 3]%Q) 2 = Ok rsi /\
    length rsi = length (map Fin [1; 2; 3]%Q) /\
    calculate_rsi (map Fin [1; 2; 3]%Q ++ [Fin 2]) 2 = Ok (rsi ++ new_rsi).
Proof.
  apply (calculate_rsi_prefix (map Fin [1; 2; 3]%Q) [Fin 2] 2). discriminate.
Defined.

(** ** The classifier on binary64 values *)

Lemma b64_cycle_color_in_range (data : list Binary64.row) (c : cycle) :
  Binary64.in_range data c ->
  Binary64.cycle_color data c = Ok (Binary64.sign_of data c).
Proof.
  intros [Hs He]. unfold Binary64.cycle_color, iloc, Binary64.sign_of.
  rewrite (getitem_in_range _ (start c) nan)
    by (unfold len in *; now rewrite length_map).
  cbn [bind].
  rewrite (getitem_in_range _ (end_ c) nan)
    by (unfold len in *; now rewrite length_map).
  reflexivity.
Qed.

Lemma b64_cycle_colors_eq (data : list Binary64.row) (cycles : list cycle) :
  Forall (Binary64.in_range data) cycles ->
  Binary64.cycle_colors data cycles = Ok (map (Binary64.sign_of data) cycles).
Proof.
  intros Hall. unfold Binary64.cycle_colors.
  rewrite (for_each_appends _ _ (fun c => [Binary64.sign_of data c])).
  - now rewrite flat_map_singleton.
  - intros s c Hc. rewrite Forall_forall in Hall.
    now rewrite (b64_cycle_color_in_range data c (Hall c Hc)).
Qed.

Lemma b64_green_cycles_from (data : list Binary64.row) (cycles : list cycle) :
  Forall (Binary64.in_range data) cycles ->
  forall n,
    for_each cycles
      (fun n c =>
         last_close <- iloc (map Binary64.Close data) (end_ c) ;;
         cross_price <-
           iloc (map Binary64.calculate_ohlc_average data) (start c) ;;
         Ok (if ltb cross_price last_close then n + 1 else n)) n
    = Ok (n + Z.of_nat
                (count_occ color_eq_dec
                   (map (Binary64.sign_of data) cycles) green)).
Proof.
  induction 1 as [| c tl [Hs He] Htl IH]; intros n.
  - simpl. f_equal. lia.
  - cbn [for_each]. unfold iloc.
    rewrite (getitem_in_range _ (end_ c) nan)
      by (unfold len in *; now rewrite length_map).
    cbn [bind].
    rewrite (getitem_in_range _ (start c) nan)
      by (unfold len in *; now rewrite length_map).
    cbn [bind]. unfold iloc in IH. rewrite IH.
    cbn [map].
    replace (Binary64.sign_of data c) with
      (if ltb (nth (Z.to_nat (start c))
                 (map Binary64.calculate_ohlc_average data) nan)
              (nth (Z.to_nat (end_ c)) (map Binary64.Close data) nan)
       then green else red) by reflexivity.
    destruct (ltb _ _).
    + rewrite count_occ_cons_eq by reflexivity. f_equal. lia.
    + rewrite count_occ_cons_neq by discriminate. reflexivity.
Qed.

(** C3, as the code has it.  For cycles whose indices lie in the table,
    the classifier colours a cycle green (positive) if and only if the
    close of the bar at its end index is greater, as binary64 values,
    than the cross price the code computes for the bar at its start
    index, which is [(((open + high) + low) + close) / 4] with every
    operation rounded to binary64, and red (negative) otherwise; the
    counts of green and red cycles that [main] computes are the numbers
    of green and red colours and sum to the number of cycles. *)
Theorem cycle_classification_binary64 (data : list Binary64.row)
  (cycles : list cycle) :
  Forall (fun c => 0 <= start c < len data /\ 0 <= end_ c < len data)
    cycles ->
  exists colors g r,
    Binary64.cycle_colors data cycles = Ok colors /\
    Binary64.green_cycles data cycles = Ok g /\
    Binary64.red_cycles data cycles = Ok r /\
    length colors = length cycles /\
    (forall k cy,
        nth_error cycles k = Some cy ->
        exists rs re col,
          nth_error data (Z.to_nat (start cy)) = Some rs /\
          nth_error data (Z.to_nat (end_ cy)) = Some re /\
          nth_error colors k = Some col /\
          (col = green <->
           ltb ((((Binary64.Open rs + Binary64.High rs) + Binary64.Low rs)
                 + Binary64.Close rs) / 4)%float
               (Binary64.Close re) = true) /\
          (col = red <->
           ltb ((((Binary64.Open rs + Binary64.High rs) + Binary64.Low rs)
                 + Binary64.Close rs) / 4)%float
               (Binary64.Close re) = false)) /\
    g = Z.of_nat (count_occ color_eq_dec colors green) /\
    r = Z.of_nat (count_occ color_eq_dec colors red) /\
    g + r = len cycles.
Proof.
  intros Hall.
  change (Forall (Binary64.in_range data) cycles) in Hall.
  exists (map (Binary64.sign_of data) cycles).
  exists (Z.of_nat (count_occ color_eq_dec
                      (map (Binary64.sign_of data) cycles) green)).
  exists (Z.of_nat (count_occ color_eq_dec
                      (map (Binary64.sign_of data) cycles) red)).
  pose proof (count_green_red (map (Binary64.sign_of data) cycles)) as Hcount.
  rewrite length_map in Hcount.
  assert (Hgreen : Binary64.green_cycles data cycles
                   = Ok (Z.of_nat (count_occ color_eq_dec
                                     (map (Binary64.sign_of data) cycles)
                                     green))).
  { unfold Binary64.green_cycles.
    now rewrite (b64_green_cycles_from data cycles Hall 0). }
  split; [now apply b64_cycle_colors_eq |].
  split; [exact Hgreen |].
  split; [unfold Binary64.red_cycles; rewrite Hgreen; cbn [bind]; f_equal;
          unfold len; lia |].
  split; [apply length_map |].
  split; [| split; [reflexivity | split; [reflexivity | unfold len; lia]]].
  intros k cy Hcy.
  assert (Hin : Binary64.in_range data cy).
  { rewrite Forall_forall in Hall. apply Hall.
    eapply nth_error_In. exact Hcy. }
  destruct Hin as [Hs He]. unfold len in Hs, He.
  destruct (nth_error data (Z.to_nat (start cy))) as [rs |] eqn:Ers.
  2: { apply nth_error_None in Ers. lia. }
  destruct (nth_error data (Z.to_nat (end_ cy))) as [re |] eqn:Ere.
  2: { apply nth_error_None in Ere. lia. }
  exists rs, re, (Binary64.sign_of data cy).
  split; [reflexivity |]. split; [reflexivity |].
  split; [now rewrite nth_error_map, Hcy |].
  unfold Binary64.sign_of.
  rewrite (nth_error_nth _ _ nan
             (eq_trans (nth_error_map _ _ _) (f_equal (option_map _) Ers))).
  rewrite (nth_error_nth _ _ nan
             (eq_trans (nth_error_map _ _ _) (f_equal (option_map _) Ere))).
  unfold Binary64.calculate_ohlc_average.
  destruct (ltb _ _); split; split; intros H;
    try reflexivity; try discriminate; congruence.
Qed.

Lemma cycle_classification_binary64_witness :
  exists colors g r,
    Binary64.cycle_colors Binary64.tie_rows [Binary64.tie_cycle] = Ok colors /\
    Binary64.green_cycles Binary64.tie_rows [Binary64.tie_cycle] = Ok g /\
    Binary64.red_cycles Binary64.tie_rows [Binary64.tie_cycle] = Ok r /\
    length colors = length [Binary64.tie_cycle] /\
    (forall k cy,
        nth_error [Binary64.tie_cycle] k = Some cy ->
        exists rs re col,
          nth_error Binary64.tie_rows (Z.to_nat (start cy)) = Some rs /\
          nth_error Binary64.tie_rows (Z.to_nat (end_ cy)) = Some re /\
          nth_error colors k = Some col /\
          (col = green <->
           ltb ((((Binary64.Open rs + Binary64.High rs) + Binary64.Low rs)
                 + Binary64.Close rs) / 4)%float
               (Binary64.Close re) = true) /\
          (col = red <->
           ltb ((((Binary64.Open rs + Binary64.High rs) + Binary64.Low rs)
                 + Binary64.Close rs) / 4)%float
               (Binary64.Close re) = false)) /\
    g = Z.of_nat (count_occ color_eq_dec colors green) /\
    r = Z.of_nat (count_occ color_eq_dec colors red) /\
    g + r = len [Binary64.tie_cycle].
Proof.
  apply (cycle_classification_binary64 Binary64.tie_rows
           [Binary64.tie_cycle]).
  repeat constructor; vm_compute; congruence.
Defined.

(** C3 fails as stated: the four prices of the first bar of [tie_rows]
    have, as real numbers, a mean equal to the close of the second bar,
    a tie, which the claim classifies as negative; the code computes a
    cross price one unit in the last place below that mean and colours
    the cycle green. *)
Lemma tie_classified_green :
  exists o h l c x,
    Binary64.exact 0x1.d47ae147ae148p+3 = Some o /\
    Binary64.exact 0x1.ep+3 = Some h /\
    Binary64.exact 0x1.c0a3d70a3d70ap+3 = Some l /\
    Binary64.exact 0x1.d51eb851eb852p+3 = Some c /\
    Binary64.exact 0x1.d28f5c28f5c29p+3 = Some x /\
    ((o + h + l + c) / 4 == x)%Q /\
    ~ (x > (o + h + l + c) / 4)%Q /\
    Binary64.cycle_colors Binary64.tie_rows [Binary64.tie_cycle]
    = Ok [green] /\
    Binary64.green_cycles Binary64.tie_rows [Binary64.tie_cycle] = Ok 1.
Proof.
  eexists. eexists. eexists. eexists. eexists.
  split; [vm_compute; reflexivity |].
  split; [vm_compute; reflexivity |].
  split; [vm_compute; reflexivity |].
  split; [vm_compute; reflexivity |].
  split; [vm_compute; reflexivity |].
  split; [vm_compute; reflexivity |].
  split; [vm_compute; intros H; discriminate H |].
  split; vm_compute; reflexivity.
Qed.

(** ** The engine against the averages of the specification *)















(** On the prices [1, 2, 3] with period 2 the averages of the
    specification at position 1 are a gain of 1/2 and a loss of 0. *)
Example rising_prices_averages :
  (spec_avg_gain rising_prices 2 1 == 1 # 2)%Q /\
  (spec_avg_loss rising_prices 2 1 == 0)%Q.
Proof. split; reflexivity. Qed.

(** C9, as the code has it.  The cycle builder never fails: for every
    cross sequence it returns one cycle per cross, and for the empty
    sequence it returns the empty cycle sequence.  The empty case is
    handled by the caller: when the detector returns no cross [main]
    reports that and stops, and every report of [main] holds the cycles
    the builder returned for a cross sequence that is not empty. *)
Theorem create_cycles_total (crosses : list cross) (data_length : Z) :
  (exists cycles,
      create_cycles crosses data_length = Ok cycles /\
      length cycles = length crosses) /\
  create_cycles [] data_length = Ok [] /\
  (forall data period overbought oversold rsi,
      data <> [] ->
      calculate_rsi (map Close data) period = Ok rsi ->
      detect_rsi_crosses rsi overbought oversold = Ok [] ->
      main_analysis data period overbought oversold = NoCrosses) /\
  (forall data period overbought oversold found cycles g r,
      main_analysis data period overbought oversold
      = Report found cycles g r ->
      found <> [] /\ create_cycles found (len data) = Ok cycles).
Proof.
  split; [| split; [reflexivity | split]].
  - eexists. split; [apply create_cycles_eq | apply length_cycles].
  - intros data period overbought oversold rsi.
    apply main_no_crosses.
  - intros data period overbought oversold found cycles g r H.
    apply report_inversion in H.
    destruct H as (_ & _ & Hne & _ & _ & -> & _).
    split; [assumption | apply create_cycles_cycles_of].
Qed.



(** On the two closes 1 and 2 with period 2 the averages of the
    specification at the last position are a gain of 1/2 and a loss of
    0, the case in which the last entry is 100. *)
Example two_rows_averages :
  map Close two_rows = map Fin [1; 2]%Q /\
  (spec_avg_gain [1; 2]%Q 2 1 == 1 # 2)%Q /\
  (spec_avg_loss [1; 2]%Q 2 1 == 0)%Q.
Proof. repeat split. Qed.
